(** * obj2glb: batch conversion of a tree of OBJ files into one GLB scene

    A shallow embedding of [src/obj2glb.py].  The program is a single
    procedure, [main]; everything it computes itself is string and list
    manipulation (building paths, filtering on the [".obj"] suffix, deriving
    node names, formatting messages, choosing an exit code).  The mesh work
    is done by the geometry library and the file system by the operating
    system; both appear here as the environment the procedure runs in. *)

From Stdlib Require Import String Ascii List ZArith Bool Lia.
From Stdlib Require Import DecimalString Floats Permutation.
Import ListNotations.

Local Open Scope string_scope.

(** ** Strings as Python handles them *)

Module Str.

(** [s[i:]] and [s[:i]] for a non-negative index. *)
Fixpoint drop (i : nat) (s : string) : string :=
  match i, s with
  | O, _ => s
  | S _, EmptyString => EmptyString
  | S i', String _ r => drop i' r
  end.

Fixpoint take (i : nat) (s : string) : string :=
  match i, s with
  | O, _ => EmptyString
  | S _, EmptyString => EmptyString
  | S i', String c r => String c (take i' r)
  end.

(** [s[i:j]]. *)
Definition slice (i j : nat) (s : string) : string := drop i (take j s).

(** [s.rfind(c)] for a one-character needle: the highest index holding
    [c], or [-1].  [rfind_from] scans left to right, [i] being the index
    of the head of [s] and [acc] the best index seen so far. *)
Fixpoint rfind_from (c : ascii) (s : string) (i acc : Z) : Z :=
  match s with
  | EmptyString => acc
  | String a r => rfind_from c r (i + 1) (if Ascii.eqb a c then i else acc)
  end.

Definition rfind (c : ascii) (s : string) : Z := rfind_from c s 0 (-1).

(** [s.startswith(p)] and [s.endswith(p)]. *)
Definition startswith (p s : string) : bool := String.eqb (take (String.length p) s) p.

Definition endswith (p s : string) : bool :=
  (String.length p <=? String.length s)%nat
  && String.eqb (drop (String.length s - String.length p) s) p.

(** Whether the character occurs in the string. *)
Fixpoint mem (c : ascii) (s : string) : bool :=
  match s with
  | EmptyString => false
  | String a r => Ascii.eqb a c || mem c r
  end.

(** Whether some character of the string differs from [c]. *)
Fixpoint has_other (c : ascii) (s : string) : bool :=
  match s with
  | EmptyString => false
  | String a r => negb (Ascii.eqb a c) || has_other c r
  end.

(** [str(n)] for a non-negative integer. *)
Definition of_nat (n : nat) : string := NilEmpty.string_of_uint (Nat.to_uint n).

End Str.

(** ** [os.path] (the POSIX flavour) *)

Module Path.

Definition sep : ascii := "/"%char.
Definition extsep : ascii := "."%char.

(** [os.path.join(a, b)]: an absolute [b] replaces [a]; otherwise [b] is
    appended, with a separator unless [a] is empty or already ends in
    one. *)
Definition join (a b : string) : string :=
  if Str.startswith "/" b then b
  else if (a =? "") || Str.endswith "/" a then a ++ b
  else a ++ "/" ++ b.

(** [os.path.basename(p)]: what follows the last separator. *)
Definition basename (p : string) : string :=
  let i := (Str.rfind sep p + 1)%Z in
  Str.drop (Z.to_nat i) p.

(** [os.path.splitext(p)]: split at the last dot, provided it comes after
    the last separator and the file name has a character other than a dot
    before it (leading dots are not an extension). *)
Definition splitext (p : string) : string * string :=
  let sepIndex := Str.rfind sep p in
  let dotIndex := Str.rfind extsep p in
  if (dotIndex >? sepIndex)%Z
  then
    let filenameIndex := (sepIndex + 1)%Z in
    if Str.has_other extsep (Str.slice (Z.to_nat filenameIndex) (Z.to_nat dotIndex) p)
    then (Str.take (Z.to_nat dotIndex) p, Str.drop (Z.to_nat dotIndex) p)
    else (p, "")
  else (p, "").

End Path.

(** ** The rotation handed to [apply_transform]

    The source builds the matrix with [np.radians] and
    [trimesh.transformations.rotation_matrix(angle, direction, point)].
    Both are the libraries'; they are written out here as they compute, on
    doubles and operation by operation: a 4x4 homogeneous matrix,
    [diag(cosa)], to which [outer(d, d) * (1 - cosa)] and then the
    cross-product matrix of [d * sina] are added, [d] being the direction
    divided by its norm, with [point - R . point] for last column.  The sine
    and cosine are the C library's. *)

(** [sin] and [cos] on doubles. *)
Class Libm : Type := {
  sin : float -> float;
  cos : float -> float
}.

Module Transform.

Local Open Scope float_scope.

Definition vec3 : Type := float * float * float.
Definition row4 : Type := float * float * float * float.
Definition matrix : Type := row4 * row4 * row4 * row4.

(** The double nearest to pi. *)
Definition pi : float := 0x1.921fb54442d18p+1.

(** [np.radians(deg)]: [deg * (pi / 180)]. *)
Definition radians (deg : float) : float := deg * (pi / 180).

Definition unit_vector (v : vec3) : vec3 :=
  let '(x, y, z) := v in
  let n := PrimFloat.sqrt (x * x + y * y + z * z) in
  (x / n, y / n, z / n).

Definition rotation_matrix `{Libm} (angle : float) (direction point : vec3) : matrix :=
  let sina := sin angle in
  let cosa := cos angle in
  let '(dx, dy, dz) := unit_vector direction in
  let '(px, py, pz) := point in
  (* M = diag([cosa, cosa, cosa, 1]); M[:3, :3] += outer(d, d) * (1 - cosa) *)
  let k := 1 - cosa in
  (* direction = direction * sina; M[:3, :3] += its cross-product matrix *)
  let sx := dx * sina in
  let sy := dy * sina in
  let sz := dz * sina in
  let r00 := (cosa + dx * dx * k) + 0 in
  let r01 := (0 + dx * dy * k) + - sz in
  let r02 := (0 + dx * dz * k) + sy in
  let r10 := (0 + dy * dx * k) + sz in
  let r11 := (cosa + dy * dy * k) + 0 in
  let r12 := (0 + dy * dz * k) + - sx in
  let r20 := (0 + dz * dx * k) + - sy in
  let r21 := (0 + dz * dy * k) + sx in
  let r22 := (cosa + dz * dz * k) + 0 in
  (* M[:3, 3] = point - dot(M[:3, :3], point) *)
  ((r00, r01, r02, px - (r00 * px + r01 * py + r02 * pz)),
   (r10, r11, r12, py - (r10 * px + r11 * py + r12 * pz)),
   (r20, r21, r22, pz - (r20 * px + r21 * py + r22 * pz)),
   (0, 0, 0, 1)).

(** The image of a point under a homogeneous matrix: the product of the
    matrix and [(x, y, z, 1)], each sum taken from left to right. *)
Definition transform_point (M : matrix) (v : vec3) : vec3 :=
  let '((m00, m01, m02, m03), (m10, m11, m12, m13), (m20, m21, m22, m23), _) := M in
  let '(x, y, z) := v in
  (m00 * x + m01 * y + m02 * z + m03 * 1,
   m10 * x + m11 * y + m12 * z + m13 * 1,
   m20 * x + m21 * y + m22 * z + m23 * 1).

(** The matrix of the source: [angle=np.radians(-90)], [direction=[1, 0, 0]],
    [point=[0, 0, 0]]. *)
Definition rotation `{Libm} : matrix :=
  rotation_matrix (radians (-90)) (1, 0, 0) (0, 0, 0).

End Transform.

(** ** The environment *)

(** What a library call gives back: a value, or an exception with the text
    [str(e)] that the handlers print. *)
Inductive result (A : Type) : Type :=
| Ok (a : A)
| Raised (msg : string).
Arguments Ok {A} a.
Arguments Raised {A} msg.

(** The statements of a [try] block in sequence: the first exception ends
    the block. *)
Definition bind {A B : Type} (r : result A) (k : A -> result B) : result B :=
  match r with
  | Ok a => k a
  | Raised msg => Raised msg
  end.

Notation "x <- r ;; k" := (bind r (fun x => k))
  (at level 61, r at next level, right associativity).

(** A directory as [os.walk] sees it: the names of its non-directory entries
    and the sub-directories it descends into, each list in the order the
    file system lists them. *)
#[warnings="-register-all"]
Inductive tree : Type :=
| Dir (files : list string) (dirs : list (string * tree)).

(** What the input path names. *)
Inductive path_state : Type :=
| Missing
| NotDir
| IsDir (t : tree).

Definition path_exists (s : path_state) : bool :=
  match s with Missing => false | _ => true end.

Definition path_isdir (s : path_state) : bool :=
  match s with IsDir _ => true | _ => false end.

(** [os.walk(top)], top-down: a directory's own triple [(root, dirs, files)],
    then the walks of its sub-directories in order. *)
Fixpoint walk_tree (top : string) (t : tree) : list (string * list string * list string) :=
  match t with
  | Dir files dirs =>
      (top, map fst dirs, files)
        :: flat_map (fun d => match d with (name, sub) => walk_tree (Path.join top name) sub end) dirs
  end.

Definition walk (top : string) (s : path_state) : list (string * list string * list string) :=
  match s with
  | IsDir t => walk_tree top t
  | _ => []
  end.

(** The libraries, as far as [main] uses them: the sine and cosine behind
    [rotation_matrix], the objects [trimesh.load] returns,
    [mesh.apply_transform(matrix)] (the object transformed, or the exception
    raised), and [len(scene.geometry)].  A [Scene] is kept as the list of
    the insertions [add_geometry(mesh, node_name=...)] made into it, oldest
    first; what the library derives from them (its geometry count, its
    nodes, the exported bytes) is the library's to say. *)
Class Trimesh : Type := {
  libm :: Libm;
  Mesh : Type;
  apply_transform : Transform.matrix -> Mesh -> result Mesh;
  geometry_len : list (string * Mesh) -> nat
}.

Definition Scene `{Trimesh} : Type := list (string * Mesh).

(** [trimesh.Scene()]. *)
Definition new_scene `{Trimesh} : Scene := [].

(** [scene.add_geometry(mesh, node_name=node_name)]. *)
Definition add_geometry `{Trimesh} (scene : Scene) (mesh : Mesh) (node_name : string) : Scene :=
  (scene ++ [(node_name, mesh)])%list.

(** The world a run happens in: what each path names, what [trimesh.load]
    does on each path, and what [scene.export(path, file_type='glb')] does:
    the bytes it writes at [path], or the exception it raises. *)
Record World `{Trimesh} : Type := {
  lookup : string -> path_state;
  load : string -> result Mesh;
  export : Scene -> string -> result (list Byte.byte)
}.

(** ** The command line

    [argparse] is the library's; what [main] states is the two arguments and
    their defaults.  [Cli] is a command line the parser accepts, reduced to
    what it binds: the positional argument when given, and the value of
    [--output-name]/[-o] when given. *)
Record Cli : Type := {
  positional : option string;
  output_name_flag : option string
}.

Record Args : Type := {
  input_folder : string;
  output_name : string
}.

Definition parse_args (c : Cli) : Args :=
  {| input_folder := match positional c with Some p => p | None => "obj/" end;
     output_name := match output_name_flag c with Some n => n | None => "model.glb" end |}.

(** ** [main]

    A run is described from the point where [parser.parse_args()] has
    returned.  [os.makedirs('model', exist_ok=True)] is taken to return: the
    directory is there afterwards, made by the call or found by it. *)

(** What a run does to the outside, in order: the lines it prints, and the
    calls that touch the file system. *)
Inductive event `{Trimesh} : Type :=
| Print (line : string)
| Makedirs (dir : string)
| Load (path : string)
| Export (scene : Scene) (path : string).

(** The variables of the walk. *)
Record state `{Trimesh} : Type := {
  scene : Scene;
  obj_files_found : nat;
  trace : list event
}.

(** How a run ends: the state it ends in, the exit code of the process, and
    the file [scene.export] wrote, if it wrote one. *)
Record outcome `{Trimesh} : Type := {
  final : state;
  exit_code : Z;
  written : option (string * list Byte.byte)
}.

Section Main.

Context `{L : Trimesh}.

Definition say (st : state) (line : string) : state :=
  {| scene := scene st;
     obj_files_found := obj_files_found st;
     trace := trace st ++ [Print line] |}.

(** [os.path.splitext(os.path.basename(obj_path))[0]]. *)
Definition node_name_of (obj_path : string) : string :=
  fst (Path.splitext (Path.basename obj_path)).

(** The body of the inner loop, for one [file] of one [root]. *)
Definition visit_file (w : World) (root file : string) (st : state) : state :=
  if Str.endswith ".obj" file then
    let obj_path := Path.join root file in
    let node_name := node_name_of obj_path in
    let st1 :=
      {| scene := scene st;
         obj_files_found := S (obj_files_found st);
         trace := trace (say st ("Loading " ++ obj_path ++ " as node '" ++ node_name ++ "'"))
                    ++ [Load obj_path] |} in
    let attempt :=
      mesh <- load w obj_path ;;
      let rotation_matrix := Transform.rotation in
      mesh <- apply_transform rotation_matrix mesh ;;
      Ok (add_geometry (scene st1) mesh node_name) in
    match attempt with
    | Ok scene' =>
        {| scene := scene'; obj_files_found := obj_files_found st1; trace := trace st1 |}
    | Raised e => say st1 ("Error loading " ++ obj_path ++ ": " ++ e)
    end
  else st.

(** [for file in files: ...] *)
Definition visit_dir (w : World) (entry : string * list string * list string)
    (st : state) : state :=
  let '(root, _, files) := entry in
  fold_left (fun st file => visit_file w root file st) files st.

(** [for root, dirs, files in os.walk(obj_dir): ...] *)
Definition visit_all (w : World) (entries : list (string * list string * list string))
    (st : state) : state :=
  fold_left (fun st entry => visit_dir w entry st) entries st.

Definition exit_with (code : Z) (st : state) : outcome :=
  {| final := st; exit_code := code; written := None |}.

Definition main (w : World) (cli : Cli) : outcome :=
  let args := parse_args cli in
  let obj_dir := input_folder args in
  let start := {| scene := new_scene; obj_files_found := 0; trace := [] |} in
  if negb (path_exists (lookup w obj_dir)) then
    exit_with 1 (say start ("Error: Input directory '" ++ obj_dir ++ "' does not exist."))
  else if negb (path_isdir (lookup w obj_dir)) then
    exit_with 1 (say start ("Error: '" ++ obj_dir ++ "' is not a directory."))
  else
    let output_dir := "model" in
    let made :=
      {| scene := new_scene; obj_files_found := 0; trace := [Makedirs output_dir] |} in
    let output_glb := Path.join output_dir (output_name args) in
    let st := visit_all w (walk obj_dir (lookup w obj_dir)) made in
    if (geometry_len (scene st) =? 0)%nat then
      if (obj_files_found st =? 0)%nat then
        exit_with 1 (say st ("No .obj files found in directory '" ++ obj_dir ++ "'."))
      else
        exit_with 1 (say st "No .obj files were successfully loaded.")
    else
      let called :=
        {| scene := scene st;
           obj_files_found := obj_files_found st;
           trace := trace st ++ [Export (scene st) output_glb] |} in
      match export w (scene st) output_glb with
      | Ok data =>
          {| final := say called
               ("Successfully combined " ++ Str.of_nat (geometry_len (scene st))
                  ++ " mesh(es) from '" ++ obj_dir ++ "' into " ++ output_glb);
             exit_code := 0;
             written := Some (output_glb, data) |}
      | Raised e =>
          exit_with 1 (say called ("Error exporting scene to " ++ output_glb ++ ": " ++ e))
      end.

End Main.

(** ** Vocabulary for the statements *)

(** The files of a walk, each with the [root] it is listed under, in the
    order the two loops meet them. *)
Definition walk_files (entries : list (string * list string * list string))
    : list (string * string) :=
  flat_map (fun entry => let '(root, _, files) := entry in map (pair root) files) entries.

(** The test the inner loop makes on a file name. *)
Definition is_obj (item : string * string) : bool := Str.endswith ".obj" (snd item).

Definition item_path (item : string * string) : string := Path.join (fst item) (snd item).

(** The paths the loops hand to [trimesh.load], in order. *)
Definition obj_paths (entries : list (string * list string * list string)) : list string :=
  map item_path (filter is_obj (walk_files entries)).

(** [file] is listed in the directory [root] of the tree [t] rooted at [top],
    at any depth. *)
Inductive in_tree : string -> tree -> string -> string -> Prop :=
| in_tree_here top files dirs file :
    In file files -> in_tree top (Dir files dirs) top file
| in_tree_sub top files dirs name sub root file :
    In (name, sub) dirs ->
    in_tree (Path.join top name) sub root file ->
    in_tree top (Dir files dirs) root file.

Section Vocabulary.

Context `{L : Trimesh}.

(** The mesh the [try] block has in hand for the file at [path] when it
    reaches [add_geometry]: loaded, then rotated. *)
Definition loaded (w : World) (path : string) : result Mesh :=
  mesh <- load w path ;; apply_transform Transform.rotation mesh.

Definition load_ok (w : World) (path : string) : bool :=
  match loaded w path with Ok _ => true | Raised _ => false end.

(** The paths for which the [try] block raises nothing, in order. *)
Definition ok_paths (w : World) (paths : list string) : list string :=
  filter (load_ok w) paths.

(** An entry of the scene that comes from the file at [path]: it carries
    the node name derived from [path] and the loaded mesh, rotated. *)
Definition entry_of (w : World) (entry : string * Mesh) (path : string) : Prop :=
  fst entry = node_name_of path
  /\ exists mesh, load w path = Ok mesh
                  /\ apply_transform Transform.rotation mesh = Ok (snd entry).

(** The two loops as one, over the files in the order they are met. *)
Definition visit_files (w : World) (items : list (string * string)) (st : state) : state :=
  fold_left (fun st item => visit_file w (fst item) (snd item) st) items st.

(** The state of the walk once the files [done] have been visited. *)
Definition state_after (w : World) (done : list (string * string)) : state :=
  visit_files w done
    {| scene := new_scene; obj_files_found := 0; trace := [Makedirs "model"] |}.

(** What visiting the files [items] adds to the scene, and to the trace. *)
Definition inserted (w : World) (items : list (string * string)) : Scene :=
  flat_map
    (fun item =>
       if is_obj item then
         match loaded w (item_path item) with
         | Ok mesh => [(node_name_of (item_path item), mesh)]
         | Raised _ => []
         end
       else [])
    items.

Definition emitted (w : World) (items : list (string * string)) : list event :=
  flat_map
    (fun item =>
       if is_obj item then
         let obj_path := item_path item in
         Print ("Loading " ++ obj_path ++ " as node '" ++ node_name_of obj_path ++ "'")
           :: Load obj_path
           :: match loaded w obj_path with
              | Ok _ => []
              | Raised e => [Print ("Error loading " ++ obj_path ++ ": " ++ e)]
              end
       else [])
    items.

Definition obj_dir_of (cli : Cli) : string := input_folder (parse_args cli).

Definition output_glb_of (cli : Cli) : string :=
  Path.join "model" (output_name (parse_args cli)).

(** The state in which the walk of the input tree [t] ends. *)
Definition walked (w : World) (cli : Cli) (t : tree) : state :=
  state_after w (walk_files (walk_tree (obj_dir_of cli) t)).

Definition exporting (cli : Cli) (st : state) : state :=
  {| scene := scene st;
     obj_files_found := obj_files_found st;
     trace := trace st ++ [Export (scene st) (output_glb_of cli)] |}.

(** The six ways through [main], each with the tests that select it. *)
Inductive ending (w : World) (cli : Cli) : outcome -> Prop :=
| ends_missing :
    lookup w (obj_dir_of cli) = Missing ->
    ending w cli
      (exit_with 1
         (say {| scene := new_scene; obj_files_found := 0; trace := [] |}
            ("Error: Input directory '" ++ obj_dir_of cli ++ "' does not exist.")))
| ends_not_a_directory :
    lookup w (obj_dir_of cli) = NotDir ->
    ending w cli
      (exit_with 1
         (say {| scene := new_scene; obj_files_found := 0; trace := [] |}
            ("Error: '" ++ obj_dir_of cli ++ "' is not a directory.")))
| ends_no_files t :
    lookup w (obj_dir_of cli) = IsDir t ->
    geometry_len (scene (walked w cli t)) = 0 ->
    obj_files_found (walked w cli t) = 0 ->
    ending w cli
      (exit_with 1
         (say (walked w cli t)
            ("No .obj files found in directory '" ++ obj_dir_of cli ++ "'.")))
| ends_none_loaded t :
    lookup w (obj_dir_of cli) = IsDir t ->
    geometry_len (scene (walked w cli t)) = 0 ->
    obj_files_found (walked w cli t) <> 0 ->
    ending w cli
      (exit_with 1 (say (walked w cli t) "No .obj files were successfully loaded."))
| ends_exported t data :
    lookup w (obj_dir_of cli) = IsDir t ->
    geometry_len (scene (walked w cli t)) <> 0 ->
    export w (scene (walked w cli t)) (output_glb_of cli) = Ok data ->
    ending w cli
      {| final :=
           say (exporting cli (walked w cli t))
             ("Successfully combined "
                ++ Str.of_nat (geometry_len (scene (walked w cli t)))
                ++ " mesh(es) from '" ++ obj_dir_of cli ++ "' into " ++ output_glb_of cli);
         exit_code := 0;
         written := Some (output_glb_of cli, data) |}
| ends_export_failed t msg :
    lookup w (obj_dir_of cli) = IsDir t ->
    geometry_len (scene (walked w cli t)) <> 0 ->
    export w (scene (walked w cli t)) (output_glb_of cli) = Raised msg ->
    ending w cli
      (exit_with 1
         (say (exporting cli (walked w cli t))
            ("Error exporting scene to " ++ output_glb_of cli ++ ": " ++ msg))).

(** The [Load] events of a trace, in order. *)
Definition loads (tr : list event) : list string :=
  flat_map (fun e => match e with Load p => [p] | _ => [] end) tr.

(** The lines printed, in order. *)
Definition printed (tr : list event) : list string :=
  flat_map (fun e => match e with Print s => [s] | _ => [] end) tr.

Definition is_print (e : event) : bool :=
  match e with Print _ => true | _ => false end.

Definition is_export (e : event) : bool :=
  match e with Export _ _ => true | _ => false end.

Definition is_makedirs (e : event) : bool :=
  match e with Makedirs _ => true | _ => false end.


End Vocabulary.

(** ** Vocabulary for the trace and the tree *)

(** The line the handler of the [try] block prints. *)
Definition is_error_line (line : string) : bool := Str.startswith "Error loading " line.

(** The line printed before each load. *)
Definition is_loading_line (line : string) : bool := Str.startswith "Loading " line.

(** No name of the tree starts with a separator (a name of a directory entry
    holds none at all). *)
Fixpoint plain_names (t : tree) : bool :=
  match t with
  | Dir files dirs =>
      forallb (fun file => negb (Str.startswith "/" file)) files
      && forallb
           (fun d => match d with
                     | (name, sub) => negb (Str.startswith "/" name) && plain_names sub
                     end)
           dirs
  end.

Section Lines.

Context `{L : Trimesh}.

(** What the walk prints for the file at [path]. *)
Definition lines_for (w : World) (path : string) : list string :=
  ("Loading " ++ path ++ " as node '" ++ node_name_of path ++ "'")
    :: match loaded w path with
       | Ok _ => []
       | Raised e => ["Error loading " ++ path ++ ": " ++ e]
       end.

Definition error_lines (tr : list event) : nat :=
  length (filter is_error_line (printed tr)).

Definition loading_lines (tr : list event) : nat :=
  length (filter is_loading_line (printed tr)).

End Lines.

(** ** The nodes of the scene

    [scene.add_geometry(mesh, node_name=node_name)] hands the object to the
    library's scene graph, and the nodes of the exported file are written
    from that graph.  The graph is the library's: [nodes] is the list of its
    nodes that show a geometry, each with the object it shows, in the order
    they were made, and [is_mesh] tells a single mesh (a [trimesh.Trimesh])
    from the other objects [trimesh.load] returns (a [trimesh.Scene], for a
    file that holds several geometries). *)
Class NodeGraph `{Trimesh} : Type := {
  is_mesh : Mesh -> bool;
  nodes : Scene -> list (string * Mesh)
}.

(** What the insertion of a single mesh does to the graph,
    [graph.update(frame_to=node_name, geometry=...)]: a node that exists
    under the name is pointed at the new mesh and keeps its place; when
    there is none, one is made. *)
Fixpoint put_node {M : Type} (name : string) (mesh : M) (graph : list (string * M))
    : list (string * M) :=
  match graph with
  | [] => [(name, mesh)]
  | (name', mesh') :: rest =>
      if name =? name' then (name, mesh) :: rest
      else (name', mesh') :: put_node name mesh rest
  end.

(** The graph that insertions of single meshes build, one after the other. *)
Definition graph_of {M : Type} (insertions : list (string * M)) : list (string * M) :=
  fold_left (fun graph entry => put_node (fst entry) (snd entry) graph) insertions [].

(** ** A small library and world to run the definitions on

    Of the C library, the two values [rotation_matrix] asks for: the sine
    and the cosine of [np.radians(-90)], as a double-precision [libm]
    returns them ([-1.0] and [6.123233995736766e-17]); other arguments are
    never asked for and get a placeholder. *)
Definition sample_libm : Libm :=
  {| sin := fun x => if PrimFloat.eqb x (Transform.radians (-90)) then (-1)%float
                     else 0%float;
     cos := fun x => if PrimFloat.eqb x (Transform.radians (-90))
                     then 0x1.1a62633145c07p-54%float
                     else 1%float |}.

(** The library itself.

    A loaded object is the number of geometries it holds (a plain mesh holds
    one, a multi-part file several, an empty file none); the transform leaves
    that number alone, and the scene's geometry count is their sum. *)
#[local] Instance counting : Trimesh := {|
  libm := sample_libm;
  Mesh := nat;
  apply_transform := fun _ m => Ok m;
  geometry_len := fun sc => list_sum (map snd sc)
|}.

Definition sample_tree : tree :=
  Dir ["a.obj"; "notes.txt"; "FILE.OBJ"]
      [("sub", Dir ["b.obj"; "bad.obj"] []); ("other", Dir ["a.obj"] [])].

Definition clean_tree : tree := Dir ["a.obj"] [("sub", Dir ["b.obj"] [])].
Definition empty_tree : tree := Dir ["notes.txt"] [].
Definition broken_tree : tree := Dir ["bad.obj"] [].
Definition hollow_tree : tree := Dir ["nothing.obj"] [].

Definition sample_lookup (p : string) : path_state :=
  if p =? "obj/" then IsDir sample_tree
  else if p =? "clean" then IsDir clean_tree
  else if p =? "empty" then IsDir empty_tree
  else if p =? "broken" then IsDir broken_tree
  else if p =? "hollow" then IsDir hollow_tree
  else if p =? "README.md" then NotDir
  else Missing.

Definition sample_load (p : string) : result nat :=
  if Str.endswith "bad.obj" p then Raised "corrupt file"
  else if Str.endswith "nothing.obj" p then Ok 0
  else if Str.endswith "b.obj" p then Ok 2
  else Ok 1.

(** An export that writes one byte per entry, and fails under the name
    [readonly.glb]. *)
Definition sample_export (sc : list (string * nat)) (p : string) : result (list Byte.byte) :=
  if Str.endswith "readonly.glb" p then Raised "permission denied"
  else Ok (map (fun _ => Byte.x2a) sc).

Definition sample_world : World :=
  {| lookup := sample_lookup; load := sample_load; export := sample_export |}.

Definition cli_default : Cli := {| positional := None; output_name_flag := None |}.

Definition cli_of (folder name : string) : Cli :=
  {| positional := Some folder; output_name_flag := Some name |}.

(** A world in which every path names the directory [t]. *)
Definition world_listing (t : tree) : World :=
  {| lookup := fun _ => IsDir t; load := sample_load; export := sample_export |}.

Definition pair_tree : tree := Dir ["a.obj"; "bad.obj"; "b.obj"] [].
Definition swapped_tree : tree := Dir ["b.obj"; "a.obj"; "bad.obj"] [].




(** ** A library that keeps the transforms

    An object is the list of the matrices applied to it since it was
    loaded. *)
Definition recording (lm : Libm) : Trimesh :=
  {| libm := lm;
     Mesh := list Transform.matrix;
     apply_transform := fun M applied => Ok (applied ++ [M])%list;
     geometry_len := fun sc => length sc |}.

(** ** A library that keeps the scene graph

    Of a loaded object it keeps what the graph is made from: a single mesh,
    with the path it was read from, or a scene of several geometries, with
    the names of its own nodes.  A single mesh goes into the graph under the
    node name it is inserted with.  A scene of several geometries brings its
    own nodes, under their own names and each showing its own geometry, and
    the node name of the insertion is not used; the names of these nodes are
    taken to be free in the graph, as they are in the runs below. *)
Inductive object : Type :=
| Single (source : string)
| Several (own_nodes : list string).

Definition geometries (o : object) : nat :=
  match o with
  | Single _ => 1
  | Several own_nodes => length own_nodes
  end.

#[local] Instance objects : Trimesh | 10 := {|
  libm := sample_libm;
  Mesh := object;
  apply_transform := fun _ m => Ok m;
  geometry_len := fun sc => list_sum (map (fun entry => geometries (snd entry)) sc)
|}.

Definition object_is_mesh (o : object) : bool :=
  match o with Single _ => true | Several _ => false end.

Definition object_nodes (sc : list (string * object)) : list (string * object) :=
  fold_left
    (fun graph entry =>
       match snd entry with
       | Single source => put_node (fst entry) (Single source) graph
       | Several own_nodes => (graph ++ map (fun name => (name, Single name)) own_nodes)%list
       end)
    sc [].

#[local] Instance objects_graph : @NodeGraph objects :=
  @Build_NodeGraph objects object_is_mesh object_nodes.

(** [a.obj] and [c.obj] hold one mesh each, [b.obj] holds two geometries,
    which the library loads as a scene with the nodes [b.obj] and
    [b.obj_1], and [bad.obj] does not parse. *)
Definition objects_load (p : string) : result object :=
  if Str.endswith "bad.obj" p then Raised "corrupt file"
  else if Str.endswith "b.obj" p then Ok (Several ["b.obj"; "b.obj_1"])
  else Ok (Single p).

Definition mixed_tree : tree := Dir ["a.obj"; "b.obj"] [].
Definition twins_tree : tree := Dir ["a.obj"] [("sub", Dir ["a.obj"] [])].
Definition plain_tree : tree := Dir ["a.obj"] [("sub", Dir ["c.obj"] [])].
Definition spoilt_tree : tree :=
  Dir ["a.obj"; "bad.obj"; "notes.txt"] [("sub", Dir ["c.obj"; "a.obj"] [])].

Definition objects_lookup (p : string) : path_state :=
  if p =? "mixed" then IsDir mixed_tree
  else if p =? "twins" then IsDir twins_tree
  else if p =? "plain" then IsDir plain_tree
  else if p =? "spoilt" then IsDir spoilt_tree
  else Missing.

(** An export that writes one byte per entry. *)
Definition objects_export (sc : list (string * object)) (p : string)
    : result (list Byte.byte) :=
  Ok (map (fun _ => Byte.x2a) sc).

Definition objects_world : @World objects :=
  @Build_World objects objects_lookup objects_load objects_export.

(** ** The definitions at work *)

Example join_plain : Path.join "obj/" "a.obj" = "obj/a.obj".
Proof. reflexivity. Qed.
Example join_sep : Path.join "obj/sub" "a.obj" = "obj/sub/a.obj".
Proof. reflexivity. Qed.
Example join_abs : Path.join "model" "/tmp/x.glb" = "/tmp/x.glb".
Proof. reflexivity. Qed.
Example join_empty : Path.join "" "a.obj" = "a.obj".
Proof. reflexivity. Qed.
Example basename_ex : Path.basename "obj/sub/chair.obj" = "chair.obj".
Proof. reflexivity. Qed.
Example splitext_ex : Path.splitext "chair.v2.obj" = ("chair.v2", ".obj").
Proof. reflexivity. Qed.
Example splitext_dotfile : Path.splitext ".obj" = (".obj", "").
Proof. reflexivity. Qed.
Example splitext_dir_dot : Path.splitext "a.b/c" = ("a.b/c", "").
Proof. reflexivity. Qed.
Example endswith_ex : Str.endswith ".obj" "chair.obj" = true.
Proof. reflexivity. Qed.
Example endswith_upper : Str.endswith ".obj" "FILE.OBJ" = false.
Proof. reflexivity. Qed.
Example of_nat_ex : Str.of_nat 12 = "12".
Proof. reflexivity. Qed.

(** A whole run, on the sample tree: four files are tried, one fails, and
    the three others go into the scene. *)
Example run_sample :
  trace (final (main sample_world cli_default))
  = [Makedirs "model";
     Print "Loading obj/a.obj as node 'a'"; Load "obj/a.obj";
     Print "Loading obj/sub/b.obj as node 'b'"; Load "obj/sub/b.obj";
     Print "Loading obj/sub/bad.obj as node 'bad'"; Load "obj/sub/bad.obj";
     Print "Error loading obj/sub/bad.obj: corrupt file";
     Print "Loading obj/other/a.obj as node 'a'"; Load "obj/other/a.obj";
     Export [("a", 1); ("b", 2); ("a", 1)] "model/model.glb";
     Print "Successfully combined 4 mesh(es) from 'obj/' into model/model.glb"]
  /\ exit_code (main sample_world cli_default) = 0%Z.
Proof. split; reflexivity. Qed.

Example run_missing :
  trace (final (main sample_world (cli_of "nowhere" "out.glb")))
  = [Print "Error: Input directory 'nowhere' does not exist."]
  /\ exit_code (main sample_world (cli_of "nowhere" "out.glb")) = 1%Z.
Proof. split; reflexivity. Qed.

Example run_not_a_directory :
  trace (final (main sample_world (cli_of "README.md" "out.glb")))
  = [Print "Error: 'README.md' is not a directory."]
  /\ exit_code (main sample_world (cli_of "README.md" "out.glb")) = 1%Z.
Proof. split; reflexivity. Qed.

Example run_empty :
  trace (final (main sample_world (cli_of "empty" "out.glb")))
  = [Makedirs "model"; Print "No .obj files found in directory 'empty'."]
  /\ exit_code (main sample_world (cli_of "empty" "out.glb")) = 1%Z.
Proof. split; reflexivity. Qed.

(** ** Facts about the string functions *)

Lemma take_app (a b : string) : Str.take (String.length a) (a ++ b) = a.
Proof. induction a as [|c a IH]; simpl; [now destruct b | now rewrite IH]. Qed.

Lemma drop_app (a b : string) : Str.drop (String.length a) (a ++ b) = b.
Proof. induction a as [|c a IH]; simpl; auto. Qed.

Lemma take_drop (n : nat) (s : string) : Str.take n s ++ Str.drop n s = s.
Proof.
  revert s; induction n as [|n IH]; intros [|c s]; simpl; auto.
  now rewrite IH.
Qed.

Lemma length_append (a b : string) :
  String.length (a ++ b) = (String.length a + String.length b)%nat.
Proof. induction a as [|c a IH]; simpl; auto. Qed.

Lemma length_take (n : nat) (s : string) :
  (n <= String.length s)%nat -> String.length (Str.take n s) = n.
Proof.
  revert s; induction n as [|n IH]; intros [|c s] Hn; simpl in *; auto; try lia.
  rewrite IH; auto; lia.
Qed.

(** [endswith] says that the string is something followed by the suffix. *)
Lemma endswith_iff (p s : string) :
  Str.endswith p s = true <-> exists a, s = a ++ p.
Proof.
  unfold Str.endswith; split.
  - intros H. apply andb_true_iff in H as [_ H].
    apply String.eqb_eq in H.
    remember (String.length s - String.length p)%nat as n.
    exists (Str.take n s). rewrite <- H. symmetry; apply take_drop.
  - intros [a ->]. rewrite length_append.
    apply andb_true_iff; split.
    + apply Nat.leb_le; lia.
    + replace (String.length a + String.length p - String.length p)%nat
        with (String.length a) by lia.
      rewrite drop_app. apply String.eqb_refl.
Qed.

Lemma rfind_from_absent (c : ascii) (s : string) (i acc : Z) :
  Str.mem c s = false -> Str.rfind_from c s i acc = acc.
Proof.
  revert i acc; induction s as [|a s IH]; simpl; intros i acc H; auto.
  apply orb_false_iff in H as [Ha Hs].
  rewrite Ha. now apply IH.
Qed.

Lemma rfind_from_last (c : ascii) (a b : string) (i acc : Z) :
  Str.mem c b = false ->
  Str.rfind_from c (a ++ String c b) i acc = (i + Z.of_nat (String.length a))%Z.
Proof.
  intros Hb. revert i acc; induction a as [|x a IH]; intros i acc.
  - simpl. rewrite Ascii.eqb_refl, rfind_from_absent by assumption. lia.
  - cbn [append Str.rfind_from String.length]. rewrite IH. lia.
Qed.

Lemma rfind_absent (c : ascii) (s : string) :
  Str.mem c s = false -> Str.rfind c s = (-1)%Z.
Proof. apply rfind_from_absent. Qed.

Lemma rfind_last (c : ascii) (a b : string) :
  Str.mem c b = false -> Str.rfind c (a ++ String c b) = Z.of_nat (String.length a).
Proof. intros H. unfold Str.rfind. now rewrite rfind_from_last. Qed.

Lemma mem_append (c : ascii) (a b : string) :
  Str.mem c (a ++ b) = Str.mem c a || Str.mem c b.
Proof. induction a as [|x a IH]; simpl; auto. now rewrite IH, orb_assoc. Qed.

Lemma append_assoc (a b c : string) : (a ++ b) ++ c = a ++ (b ++ c).
Proof. induction a as [|x a IH]; simpl; auto. now rewrite IH. Qed.

(** The base name of a path that ends in a separator-free name is that
    name. *)
Lemma basename_after_sep (a b : string) :
  Str.mem Path.sep b = false -> Path.basename (a ++ String Path.sep b) = b.
Proof.
  intros H. unfold Path.basename. rewrite rfind_last by assumption.
  replace (Z.to_nat (Z.of_nat (String.length a) + 1)) with (S (String.length a)) by lia.
  change (S (String.length a)) with (String.length (String Path.sep a)).
  clear H. induction a as [|x a IH]; simpl; auto.
Qed.

Lemma basename_plain (b : string) :
  Str.mem Path.sep b = false -> Path.basename b = b.
Proof. intros H. unfold Path.basename. now rewrite rfind_absent. Qed.

Lemma basename_join (root file : string) :
  Str.mem Path.sep file = false -> Path.basename (Path.join root file) = file.
Proof.
  intros H. unfold Path.join.
  assert (Hs : Str.startswith "/" file = false).
  { destruct file as [|c r]; [reflexivity|].
    simpl in H. apply orb_false_iff in H as [Hc _].
    unfold Str.startswith; simpl. destruct r; simpl; fold Path.sep; rewrite Hc; reflexivity. }
  rewrite Hs.
  destruct (root =? "") eqn:He; simpl.
  - apply String.eqb_eq in He; subst. simpl. now apply basename_plain.
  - destruct (Str.endswith "/" root) eqn:Hend.
    + apply endswith_iff in Hend as [a ->].
      rewrite append_assoc. simpl. now apply basename_after_sep.
    + now apply (basename_after_sep root file).
Qed.

(** On a separator-free name whose stem is not made of dots only,
    [splitext] cuts the [".obj"] off. *)
Lemma splitext_obj (stem : string) :
  Str.mem Path.sep stem = false ->
  Str.has_other Path.extsep stem = true ->
  Path.splitext (stem ++ ".obj") = (stem, ".obj").
Proof.
  intros Hsep Hdot. unfold Path.splitext.
  rewrite (rfind_absent Path.sep) by (rewrite mem_append, Hsep; reflexivity).
  change (stem ++ ".obj") with (stem ++ String Path.extsep "obj").
  rewrite rfind_last by reflexivity.
  replace (Z.of_nat (String.length stem) >? -1)%Z with true by (symmetry; apply Z.gtb_lt; lia).
  cbv zeta. rewrite Nat2Z.id. unfold Str.slice. simpl (Z.to_nat (-1 + 1)).
  rewrite take_app, drop_app. simpl (Str.drop 0 stem). now rewrite Hdot.
Qed.

(** The node name of a file [stem.obj] is [stem], whatever directory it is
    listed under. *)
Lemma node_name_of_obj `{L : Trimesh} (root stem : string) :
  Str.mem Path.sep stem = false ->
  Str.has_other Path.extsep stem = true ->
  node_name_of (Path.join root (stem ++ ".obj")) = stem.
Proof.
  intros Hsep Hdot. unfold node_name_of.
  rewrite basename_join by (rewrite mem_append, Hsep; reflexivity).
  now rewrite splitext_obj.
Qed.

(** ** The walk *)

(** Induction on a tree, with the hypothesis for every sub-directory. *)
Lemma tree_rect' (P : tree -> Prop)
  (step : forall files dirs, Forall (fun d => P (snd d)) dirs -> P (Dir files dirs)) :
  forall t, P t.
Proof.
  fix rec 1. intros [files dirs]. apply step.
  induction dirs as [|[name sub] dirs IH]; constructor; [apply rec | exact IH].
Qed.

Lemma in_walk_files (entries : list (string * list string * list string)) root file :
  In (root, file) (walk_files entries)
  <-> exists dirs files, In (root, dirs, files) entries /\ In file files.
Proof.
  unfold walk_files. rewrite in_flat_map. split.
  - intros [[[r ds] fs] [Hin Hf]]. apply in_map_iff in Hf as [f [Heq Hf]].
    inversion Heq; subst. eauto.
  - intros [ds [fs [Hin Hf]]]. exists (root, ds, fs). split; auto.
    apply in_map_iff. eauto.
Qed.

(** The walk reaches exactly the files of the tree, at every depth. *)
Lemma walk_tree_in_tree (t : tree) : forall top root file,
  In (root, file) (walk_files (walk_tree top t)) <-> in_tree top t root file.
Proof.
  induction t as [files dirs IH] using tree_rect'. intros top root file.
  rewrite in_walk_files. split.
  - intros [ds [fs [Hin Hf]]]. simpl in Hin. destruct Hin as [Heq | Hin].
    + inversion Heq; subst. now constructor.
    + apply in_flat_map in Hin as [[name sub] [Hd Hin]].
      apply in_tree_sub with (name := name) (sub := sub); auto.
      rewrite Forall_forall in IH. apply (IH (name, sub) Hd).
      apply in_walk_files. eauto.
  - intros H. inversion H; subst.
    + exists (map fst dirs), files. split; auto. now left.
    + rewrite Forall_forall in IH.
      match goal with
      | Hd : In (?n, ?s) dirs, Ht : in_tree _ ?s _ _ |- _ =>
          apply (IH (n, s) Hd) in Ht; apply in_walk_files in Ht as [ds [fs [Hin Hf]]];
          exists ds, fs; split; auto; simpl; right;
          apply in_flat_map; exists (n, s); auto
      end.
Qed.

Section Walk.

Context `{L : Trimesh}.
Variable w : World.

Local Abbreviation run := (visit_files w).

Lemma visit_dir_flat root dirs files st :
  visit_dir w (root, dirs, files) st = run (map (pair root) files) st.
Proof.
  unfold visit_dir. revert st. induction files as [|f files IH]; intros st; simpl; auto.
Qed.

Lemma visit_all_flat entries st :
  visit_all w entries st = run (walk_files entries) st.
Proof.
  unfold visit_all, walk_files. revert st.
  induction entries as [|[[root dirs] files] entries IH]; intros st; simpl; auto.
  unfold visit_files. rewrite fold_left_app.
  fold (visit_files w (map (pair root) files) st).
  rewrite <- (visit_dir_flat root dirs). apply IH.
Qed.

(** One turn of the inner loop on a name that ends in [".obj"], by what the
    [try] block comes to. *)
Lemma visit_file_obj root file st :
  Str.endswith ".obj" file = true ->
  visit_file w root file st
  = let obj_path := Path.join root file in
    let announced :=
      (trace st ++ [Print ("Loading " ++ obj_path ++ " as node '"
                             ++ node_name_of obj_path ++ "'");
                    Load obj_path])%list in
    match loaded w obj_path with
    | Ok mesh =>
        {| scene := (scene st ++ [(node_name_of obj_path, mesh)])%list;
           obj_files_found := S (obj_files_found st);
           trace := announced |}
    | Raised e =>
        {| scene := scene st;
           obj_files_found := S (obj_files_found st);
           trace := (announced ++ [Print ("Error loading " ++ obj_path ++ ": " ++ e)])%list |}
    end.
Proof.
  intros Hobj. unfold visit_file, loaded, say, add_geometry. rewrite Hobj.
  cbv zeta. cbn [scene obj_files_found trace].
  destruct (load w (Path.join root file)) as [mesh|e]; cbn [bind].
  - destruct (apply_transform Transform.rotation mesh); cbn [bind];
      rewrite <- ?app_assoc; reflexivity.
  - rewrite <- ?app_assoc; reflexivity.
Qed.

Lemma visit_file_other root file st :
  Str.endswith ".obj" file = false -> visit_file w root file st = st.
Proof. intros H. unfold visit_file. now rewrite H. Qed.

Lemma run_scene items : forall st,
  scene (run items st) = (scene st ++ inserted w items)%list.
Proof.
  induction items as [|[root file] items IH]; intros st; simpl.
  - now rewrite app_nil_r.
  - rewrite IH. unfold is_obj, item_path; cbn [fst snd].
    destruct (Str.endswith ".obj" file) eqn:Hobj.
    + rewrite (visit_file_obj _ _ _ Hobj). cbv zeta.
      destruct (loaded w (Path.join root file)); cbn [scene];
        rewrite <- ?app_assoc; reflexivity.
    + now rewrite (visit_file_other _ _ _ Hobj).
Qed.

Lemma run_found items : forall st,
  obj_files_found (run items st)
  = (obj_files_found st + length (filter is_obj items))%nat.
Proof.
  induction items as [|[root file] items IH]; intros st; simpl.
  - lia.
  - rewrite IH. unfold is_obj; cbn [fst snd].
    destruct (Str.endswith ".obj" file) eqn:Hobj.
    + rewrite (visit_file_obj _ _ _ Hobj). cbv zeta.
      destruct (loaded w (Path.join root file)); cbn [obj_files_found length]; lia.
    + rewrite (visit_file_other _ _ _ Hobj). lia.
Qed.

Lemma run_trace items : forall st,
  trace (run items st) = (trace st ++ emitted w items)%list.
Proof.
  induction items as [|[root file] items IH]; intros st; simpl.
  - now rewrite app_nil_r.
  - rewrite IH. unfold is_obj, item_path; cbn [fst snd].
    destruct (Str.endswith ".obj" file) eqn:Hobj.
    + rewrite (visit_file_obj _ _ _ Hobj). cbv zeta.
      destruct (loaded w (Path.join root file)); cbn [trace];
        rewrite <- ?app_assoc; reflexivity.
    + now rewrite (visit_file_other _ _ _ Hobj).
Qed.


Lemma emitted_app a b : emitted w (a ++ b) = (emitted w a ++ emitted w b)%list.
Proof. apply flat_map_app. Qed.

(** The scene holds one entry per file that loaded, in order, each with
    that file's node name and rotated mesh. *)
Lemma inserted_entries items :
  Forall2 (entry_of w) (inserted w items)
    (ok_paths w (map item_path (filter is_obj items))).
Proof.
  induction items as [|item items IH]; simpl; [constructor|].
  destruct (is_obj item) eqn:Hobj; simpl; auto.
  unfold load_ok at 1.
  destruct (loaded w (item_path item)) as [mesh|e] eqn:Hload; simpl; auto.
  constructor; auto. split; [reflexivity|]. cbn [snd].
  unfold loaded in Hload. destruct (load w (item_path item)) as [mesh0|]; [|discriminate].
  exists mesh0. auto.
Qed.

Lemma inserted_names items :
  map fst (inserted w items)
  = map node_name_of (ok_paths w (map item_path (filter is_obj items))).
Proof.
  induction items as [|item items IH]; simpl; auto.
  destruct (is_obj item) eqn:Hobj; simpl; auto.
  unfold load_ok at 1. destruct (loaded w (item_path item)); simpl; auto.
  now rewrite IH.
Qed.

Lemma loads_emitted items :
  loads (emitted w items) = map item_path (filter is_obj items).
Proof.
  induction items as [|item items IH]; auto.
  change (item :: items) with ([item] ++ items)%list.
  rewrite emitted_app. unfold loads in *. rewrite flat_map_app, IH.
  rewrite filter_app, map_app. f_equal. simpl.
  destruct (is_obj item); simpl; auto.
  destruct (loaded w (item_path item)); reflexivity.
Qed.

Lemma emitted_quiet items e :
  In e (emitted w items) -> is_export e = false /\ is_makedirs e = false.
Proof.
  unfold emitted. rewrite in_flat_map. intros [item [_ H]].
  destruct (is_obj item); [|contradiction].
  destruct H as [<- | [<- | H]]; auto.
  destruct (loaded w (item_path item)); simpl in H; intuition (subst; reflexivity).
Qed.

Lemma emitted_error items item msg :
  In item items -> is_obj item = true -> loaded w (item_path item) = Raised msg ->
  In (Print ("Error loading " ++ item_path item ++ ": " ++ msg)) (emitted w items).
Proof.
  intros Hin Hobj Hload. unfold emitted. apply in_flat_map. exists item. split; auto.
  rewrite Hobj, Hload. simpl. auto.
Qed.

End Walk.

(** ** The shape of a run *)

Section Shape.

Context `{L : Trimesh}.
Variables (w : World) (cli : Cli).

(** Every run of [main] is one of the six endings. *)
Lemma main_ending : ending w cli (main w cli).
Proof.
  unfold main. cbv zeta. fold (obj_dir_of cli). fold (output_glb_of cli).
  destruct (lookup w (obj_dir_of cli)) as [| |t] eqn:Hl;
    cbn [path_exists path_isdir negb walk].
  - now apply ends_missing.
  - now apply ends_not_a_directory.
  - rewrite visit_all_flat. fold (state_after w (walk_files (walk_tree (obj_dir_of cli) t))).
    fold (walked w cli t).
    destruct (geometry_len (scene (walked w cli t)) =? 0)%nat eqn:Hg.
    + apply Nat.eqb_eq in Hg.
      destruct (obj_files_found (walked w cli t) =? 0)%nat eqn:Hf.
      * apply Nat.eqb_eq in Hf. now apply ends_no_files.
      * apply Nat.eqb_neq in Hf. now apply ends_none_loaded.
    + apply Nat.eqb_neq in Hg.
      fold (exporting cli (walked w cli t)).
      destruct (export w (scene (walked w cli t)) (output_glb_of cli)) as [data|msg] eqn:He.
      * now apply ends_exported.
      * now apply ends_export_failed.
Qed.

Lemma walked_scene t :
  scene (walked w cli t) = inserted w (walk_files (walk_tree (obj_dir_of cli) t)).
Proof. unfold walked, state_after. now rewrite run_scene. Qed.

Lemma walked_found t :
  obj_files_found (walked w cli t) = length (obj_paths (walk_tree (obj_dir_of cli) t)).
Proof.
  unfold walked, state_after, obj_paths. now rewrite run_found, length_map.
Qed.

Lemma walked_trace t :
  trace (walked w cli t)
  = Makedirs "model" :: emitted w (walk_files (walk_tree (obj_dir_of cli) t)).
Proof. unfold walked, state_after. now rewrite run_trace. Qed.

Lemma walked_entries t :
  Forall2 (entry_of w) (scene (walked w cli t))
    (ok_paths w (obj_paths (walk_tree (obj_dir_of cli) t))).
Proof. rewrite walked_scene. apply inserted_entries. Qed.

End Shape.

(** The case analysis every statement about a run starts with. *)
Ltac ending_cases w cli :=
  destruct (main_ending w cli)
    as [Hl | Hl | t' Hl Hg Hf | t' Hl Hg Hf | t' data Hl Hg He | t' msg Hl Hg He].


(** ** Exit codes and what a run writes *)

Section Exits.

Context `{L : Trimesh}.
Variables (w : World) (cli : Cli).

Local Abbreviation o := (main w cli).
Local Abbreviation obj_dir := (obj_dir_of cli).
Local Abbreviation output_glb := (output_glb_of cli).

Lemma trace_say st line : trace (say st line) = (trace st ++ [Print line])%list.
Proof. reflexivity. Qed.

Lemma in_walked_trace t e :
  In e (trace (walked w cli t)) ->
  e = Makedirs "model" \/ (is_export e = false /\ is_makedirs e = false).
Proof.
  rewrite walked_trace. intros [<- | H]; [now left | right].
  eapply emitted_quiet; eauto.
Qed.

Lemma inserted_nil items :
  ok_paths w (map item_path (filter is_obj items)) = [] -> inserted w items = [].
Proof.
  intros H. pose proof (inserted_entries w items) as F. rewrite H in F.
  now inversion F.
Qed.

Lemma walked_scene_nil t :
  ok_paths w (obj_paths (walk_tree obj_dir t)) = [] -> scene (walked w cli t) = [].
Proof. intros H. rewrite walked_scene. now apply inserted_nil. Qed.

(** C9.  [os.makedirs('model')] is called exactly when the input path
    exists and is a directory.  When it does not, the run prints its error
    and exits 1 having touched nothing: every event is a printed line and
    no file is written.  When it does, the call is the first thing the run
    does, before any file of the walk is loaded and whatever the exit code
    turns out to be. *)
Theorem C9_model_dir_made_iff_input_is_directory :
  (In (Makedirs "model") (trace (final o))
   <-> path_exists (lookup w obj_dir) && path_isdir (lookup w obj_dir) = true)
  /\ (path_exists (lookup w obj_dir) && path_isdir (lookup w obj_dir) = false ->
      exit_code o = 1%Z /\ written o = None
      /\ forall e, In e (trace (final o)) -> is_print e = true)
  /\ (path_exists (lookup w obj_dir) && path_isdir (lookup w obj_dir) = true ->
      exists rest,
        trace (final o) = Makedirs "model" :: rest
        /\ (forall e, In e rest -> is_makedirs e = false)
        /\ loads (trace (final o)) = loads rest
        /\ printed (trace (final o)) = printed rest).
Proof.
  assert (Hrest : forall t tail,
    (forall e, In e tail -> is_makedirs e = false) ->
    exists rest,
      (trace (walked w cli t) ++ tail)%list = Makedirs "model" :: rest
      /\ (forall e, In e rest -> is_makedirs e = false)
      /\ loads (trace (walked w cli t) ++ tail) = loads rest
      /\ printed (trace (walked w cli t) ++ tail) = printed rest).
  { intros t tail Ht. rewrite walked_trace.
    exists (emitted w (walk_files (walk_tree obj_dir t)) ++ tail)%list.
    repeat split; auto.
    intros e He. apply in_app_or in He as [He | He]; auto.
    now apply emitted_quiet in He. }
  destruct (main_ending w cli) as [Hl | Hl | t Hl _ _ | t Hl _ _ | t data Hl _ _ | t msg Hl _ _];
    rewrite Hl; cbn [path_exists path_isdir andb final exit_with exit_code written].
  1, 2: split; [split; [intros [H | []]; discriminate | discriminate]
               | split; [intros _; repeat split; auto; intros e [<- | []]; reflexivity
                        | discriminate]].
  1, 2: rewrite trace_say;
    split; [split; [reflexivity | intros _; rewrite walked_trace; now left]
           | split; [discriminate | intros _; apply Hrest; intros e [<- | []]; reflexivity]].
  1, 2: rewrite trace_say; unfold exporting; cbn [trace]; rewrite <- app_assoc;
    split; [split; [reflexivity | intros _; rewrite walked_trace; now left]
           | split; [discriminate
                    | intros _; apply Hrest; intros e [<- | [<- | []]]; reflexivity]].
Qed.

(** The check after the walk: the run stops there, with exit code 1 and
    before any export, exactly when the scene holds no geometry. *)
Lemma decision_after_walk t :
  lookup w obj_dir = IsDir t ->
  (geometry_len (scene (final o)) = 0
   <-> exit_code o = 1%Z /\ forall e, In e (trace (final o)) -> is_export e = false)
  /\ (geometry_len (scene (final o)) = 0 -> written o = None)
  /\ (geometry_len (scene (final o)) <> 0 ->
      In (Export (scene (final o)) output_glb) (trace (final o)))
  /\ (exit_code o = 0%Z ->
      last (printed (trace (final o))) ""
      = "Successfully combined " ++ Str.of_nat (geometry_len (scene (final o)))
          ++ " mesh(es) from '" ++ obj_dir ++ "' into " ++ output_glb).
Proof.
  intros Ht.
  assert (Hquiet : forall t' line e,
    In e (trace (say (walked w cli t') line)) -> is_export e = false).
  { intros t' line e. rewrite trace_say. intros He.
    apply in_app_or in He as [He | [<- | []]]; auto.
    apply in_walked_trace in He as [-> | [He _]]; auto. }
  assert (Hin : forall t' line,
    In (Export (scene (walked w cli t')) output_glb)
       (trace (say (exporting cli (walked w cli t')) line))).
  { intros t' line. rewrite trace_say. unfold exporting; cbn [trace].
    apply in_or_app; left. apply in_or_app; right. now left. }
  ending_cases w cli;
    try congruence; cbn [final exit_with exit_code written scene say exporting].
  - repeat split; eauto; try congruence; try discriminate.
  - repeat split; eauto; try congruence; try discriminate.
  - repeat split; try congruence; try discriminate.
    + intros [_ H]. exfalso. specialize (H _ (Hin t' _)). discriminate.
    + intros _. apply (Hin t').
    + intros _. rewrite trace_say. unfold printed. rewrite flat_map_app. simpl.
      apply last_last.
  - repeat split; try congruence; try discriminate.
    + intros [_ H]. exfalso. specialize (H _ (Hin t' _)). discriminate.
    + intros _. apply (Hin t').
Qed.

(** Whatever happens after the walk, the scene is the one the walk left. *)
Lemma final_scene t :
  lookup w obj_dir = IsDir t -> scene (final o) = scene (walked w cli t).
Proof.
  intros Ht.
  ending_cases w cli;
    try congruence; replace t' with t by congruence; reflexivity.
Qed.

Lemma final_found t :
  lookup w obj_dir = IsDir t ->
  obj_files_found (final o) = length (obj_paths (walk_tree obj_dir t)).
Proof.
  intros Ht. rewrite <- walked_found with (w := w).
  ending_cases w cli;
    try congruence; replace t' with t by congruence; reflexivity.
Qed.

Lemma final_loads t :
  lookup w obj_dir = IsDir t -> loads (trace (final o)) = obj_paths (walk_tree obj_dir t).
Proof.
  intros Ht.
  assert (Hloads : forall tail,
    loads tail = [] ->
    loads (trace (walked w cli t) ++ tail) = obj_paths (walk_tree obj_dir t)).
  { intros tail Htail. unfold loads in *. rewrite flat_map_app, Htail, app_nil_r.
    rewrite walked_trace. simpl. apply loads_emitted. }
  ending_cases w cli;
    try congruence; replace t' with t by congruence;
    cbn [final exit_with]; rewrite trace_say; unfold exporting; cbn [trace];
    rewrite <- ?app_assoc; now apply Hloads.
Qed.

Lemma final_entries t :
  lookup w obj_dir = IsDir t ->
  Forall2 (entry_of w) (scene (final o)) (ok_paths w (obj_paths (walk_tree obj_dir t))).
Proof. intros Ht. rewrite (final_scene t Ht). apply walked_entries. Qed.

Lemma final_errors t :
  lookup w obj_dir = IsDir t ->
  forall item why,
    In item (walk_files (walk_tree obj_dir t)) -> is_obj item = true ->
    loaded w (item_path item) = Raised why ->
    In (Print ("Error loading " ++ item_path item ++ ": " ++ why)) (trace (final o)).
Proof.
  intros Ht item why Hin Hobj Hload.
  assert (Herr : forall tail,
    In (Print ("Error loading " ++ item_path item ++ ": " ++ why))
       (trace (walked w cli t) ++ tail)).
  { intros tail. apply in_or_app; left.
    rewrite walked_trace. right. now apply emitted_error. }
  ending_cases w cli; try congruence; replace t' with t by congruence;
    cbn [final exit_with]; rewrite trace_say; unfold exporting; cbn [trace];
    rewrite <- ?app_assoc; apply Herr.
Qed.

Lemma exit_0_with_geometry t :
  lookup w obj_dir = IsDir t ->
  geometry_len (scene (final o)) <> 0 ->
  (exists data, export w (scene (final o)) output_glb = Ok data) ->
  exit_code o = 0%Z.
Proof.
  intros Ht.
  ending_cases w cli; try congruence;
    cbn [final exit_with exit_code scene say exporting]; try contradiction; auto.
  intros _ [data' Hd]. congruence.
Qed.

(** With an input directory, the exit code is 1 in two cases: the scene was
    left without geometry, or the export raised. *)
Lemma exit_1_iff t :
  lookup w obj_dir = IsDir t ->
  exit_code o = 1%Z
  <-> geometry_len (scene (final o)) = 0
      \/ exists why, export w (scene (final o)) output_glb = Raised why.
Proof.
  intros Ht.
  ending_cases w cli; try congruence;
    cbn [final exit_with exit_code scene say exporting]; split; auto.
  - intros H; discriminate H.
  - intros [Hz | [why Hr]]; [contradiction | congruence].
  - intros _. right. now exists msg.
Qed.

End Exits.

Section ExitCodes.

Context `{L : Trimesh}.
Variables (w : World) (cli : Cli).

(** [trimesh.Scene()] starts with no geometry. *)
Hypothesis new_scene_empty : geometry_len new_scene = 0.

Local Abbreviation o := (main w cli).
Local Abbreviation obj_dir := (obj_dir_of cli).
Local Abbreviation output_glb := (output_glb_of cli).

Lemma no_export_while_walking t line sc path :
  ~ In (Export sc path) (trace (say (walked w cli t) line)).
Proof.
  intros H. rewrite trace_say in H.
  apply in_app_or in H as [H | [H | []]]; [|discriminate].
  apply in_walked_trace in H as [H | [H _]]; discriminate.
Qed.

Lemma the_export_called t line sc path :
  In (Export sc path) (trace (say (exporting cli (walked w cli t)) line)) ->
  sc = scene (walked w cli t) /\ path = output_glb.
Proof.
  intros H. rewrite trace_say in H. unfold exporting in H; cbn [trace] in H.
  apply in_app_or in H as [H | [H | []]]; [|discriminate].
  apply in_app_or in H as [H | [H | []]].
  - apply in_walked_trace in H as [H | [H _]]; discriminate.
  - now inversion H.
Qed.

Lemma export_is_called t line :
  In (Export (scene (walked w cli t)) output_glb)
     (trace (say (exporting cli (walked w cli t)) line)).
Proof.
  rewrite trace_say. unfold exporting; cbn [trace].
  apply in_or_app; left. apply in_or_app; right. now left.
Qed.

Lemma exit_code_is_0_or_1 : exit_code o = 0%Z \/ exit_code o = 1%Z.
Proof. ending_cases w cli; cbn [exit_code exit_with]; auto. Qed.

Lemma exit_0_iff_export_returned :
  exit_code o = 0%Z
  <-> exists sc path data,
        In (Export sc path) (trace (final o)) /\ export w sc path = Ok data.
Proof.
  ending_cases w cli; cbn [final exit_with exit_code]; split; try discriminate; auto.
  - intros [sc [path [data [[H | []] _]]]]; discriminate.
  - intros [sc [path [data [[H | []] _]]]]; discriminate.
  - intros [sc [path [data [H _]]]]. now apply no_export_while_walking in H.
  - intros [sc [path [data [H _]]]]. now apply no_export_while_walking in H.
  - intros _. exists (scene (walked w cli t')), output_glb, data.
    split; [apply export_is_called | exact He].
  - intros [sc [path [data [H Hok]]]]. apply the_export_called in H as [-> ->]. congruence.
Qed.

Lemma exit_1_without_geometry t :
  lookup w obj_dir = IsDir t ->
  geometry_len (scene (final o)) = 0 ->
  exit_code o = 1%Z /\ written o = None
  /\ forall e, In e (trace (final o)) -> is_export e = false.
Proof.
  intros Ht. ending_cases w cli; try congruence;
    cbn [final exit_with exit_code written scene say exporting]; intros Hz;
    try contradiction.
  all: repeat split; intros e Hin; destruct e; auto;
    now apply no_export_while_walking in Hin.
Qed.

Lemma exit_1_when_export_raises sc path why :
  In (Export sc path) (trace (final o)) -> export w sc path = Raised why ->
  exit_code o = 1%Z.
Proof.
  ending_cases w cli; cbn [final exit_with exit_code]; auto.
  intros H Hr. apply the_export_called in H as [-> ->]. congruence.
Qed.

(** C3.  The exit code is 0 or 1.  It is 0 exactly when [scene.export]
    was called and returned.  It is 1 when the input path is missing, when
    it is not a directory, when the walk meets no [.obj] file, when no
    load returns, when the scene is left without geometry, and when the
    export raises.  When the walk meets no [.obj] file, no export is
    attempted and no file is written. *)
Theorem C3_exit_codes :
  (exit_code o = 0%Z \/ exit_code o = 1%Z)
  /\ (exit_code o = 0%Z
      <-> exists sc path data,
            In (Export sc path) (trace (final o)) /\ export w sc path = Ok data)
  /\ (lookup w obj_dir = Missing -> exit_code o = 1%Z)
  /\ (lookup w obj_dir = NotDir -> exit_code o = 1%Z)
  /\ (forall t, lookup w obj_dir = IsDir t ->
        obj_paths (walk_tree obj_dir t) = [] ->
        exit_code o = 1%Z /\ written o = None
        /\ forall e, In e (trace (final o)) -> is_export e = false)
  /\ (forall t, lookup w obj_dir = IsDir t ->
        ok_paths w (obj_paths (walk_tree obj_dir t)) = [] ->
        exit_code o = 1%Z)
  /\ (forall t, lookup w obj_dir = IsDir t ->
        geometry_len (scene (final o)) = 0 ->
        exit_code o = 1%Z)
  /\ (forall sc path msg,
        In (Export sc path) (trace (final o)) -> export w sc path = Raised msg ->
        exit_code o = 1%Z).
Proof.
  assert (Hnone : forall t,
    lookup w obj_dir = IsDir t ->
    ok_paths w (obj_paths (walk_tree obj_dir t)) = [] ->
    geometry_len (scene (final o)) = 0).
  { intros t Ht H. rewrite (final_scene w cli t Ht). now rewrite walked_scene_nil. }
  split; [apply exit_code_is_0_or_1|].
  split; [apply exit_0_iff_export_returned|].
  split; [intros H; ending_cases w cli; try congruence; reflexivity|].
  split; [intros H; ending_cases w cli; try congruence; reflexivity|].
  split.
  { intros t Ht Hp. apply (exit_1_without_geometry t Ht).
    apply (Hnone t Ht). now rewrite Hp. }
  split.
  { intros t Ht Hp. now apply (exit_1_without_geometry t Ht), (Hnone t Ht). }
  split.
  { intros t Ht Hz. now apply (exit_1_without_geometry t Ht). }
  apply exit_1_when_export_raises.
Qed.

(** C4.  In a run over an input directory, every [.obj] file met is handed
    to the loader, in order, whether or not earlier ones failed; each
    failure (of the load, or of the transform after it) prints its line,
    with the path and the exception's text; the scene ends with one entry
    for each file for which neither raised and none for the others; and the
    run exits 0 as soon as the scene holds some
    geometry and the export returns, which is to say whenever the export
    is reached and returns.  For a library in which every insertion leaves
    the scene with some geometry, one load that returns is enough. *)
Theorem C4_load_errors_are_skipped (t : tree) :
  lookup w obj_dir = IsDir t ->
  (forall item msg,
      In item (walk_files (walk_tree obj_dir t)) -> is_obj item = true ->
      load w (item_path item) = Raised msg ->
      In (Print ("Error loading " ++ item_path item ++ ": " ++ msg)) (trace (final o)))
  /\ (forall item mesh msg,
        In item (walk_files (walk_tree obj_dir t)) -> is_obj item = true ->
        load w (item_path item) = Ok mesh ->
        apply_transform Transform.rotation mesh = Raised msg ->
        In (Print ("Error loading " ++ item_path item ++ ": " ++ msg)) (trace (final o)))
  /\ loads (trace (final o)) = obj_paths (walk_tree obj_dir t)
  /\ Forall2 (entry_of w) (scene (final o)) (ok_paths w (obj_paths (walk_tree obj_dir t)))
  /\ (geometry_len (scene (final o)) <> 0 ->
      (exists data, export w (scene (final o)) output_glb = Ok data) ->
      exit_code o = 0%Z)
  /\ (forall sc path data,
        In (Export sc path) (trace (final o)) -> export w sc path = Ok data ->
        exit_code o = 0%Z)
  /\ ((forall sc : Scene, sc <> [] -> geometry_len sc <> 0) ->
      ok_paths w (obj_paths (walk_tree obj_dir t)) <> [] ->
      (exists data, export w (scene (final o)) output_glb = Ok data) ->
      exit_code o = 0%Z).
Proof.
  intros Ht.
  assert (Hsome : ok_paths w (obj_paths (walk_tree obj_dir t)) <> [] ->
                  scene (final o) <> []).
  { intros Hne Hnil. pose proof (final_entries w cli t Ht) as F.
    rewrite Hnil in F. inversion F; congruence. }
  split.
  { intros item msg Hin Hobj Hload. apply (final_errors w cli t Ht); auto.
    unfold loaded. now rewrite Hload. }
  split.
  { intros item mesh msg Hin Hobj Hload Hmove. apply (final_errors w cli t Ht); auto.
    unfold loaded. now rewrite Hload. }
  split; [apply (final_loads w cli t Ht)|].
  split; [apply (final_entries w cli t Ht)|].
  split; [apply (exit_0_with_geometry w cli t Ht)|].
  split.
  - intros sc path data Hin Hok. apply exit_0_iff_export_returned. eauto.
  - intros Hlib Hne. apply (exit_0_with_geometry w cli t Ht). now apply Hlib, Hsome.
Qed.

End ExitCodes.

(** ** The scene and the files it comes from *)

Lemma filter_all {A : Type} (p : A -> bool) (l : list A) :
  (forall x, In x l -> p x = true) -> filter p l = l.
Proof.
  induction l as [|x l IH]; simpl; intros H; auto.
  rewrite (H x) by now left. f_equal. apply IH. intros y Hy. apply H. now right.
Qed.


Section Scenes.

Context `{L : Trimesh}.
Variables (w : World) (cli : Cli).

Local Abbreviation o := (main w cli).
Local Abbreviation obj_dir := (obj_dir_of cli).
Local Abbreviation output_glb := (output_glb_of cli).

(** C6.  The files handed to the loader are, in the order of the walk,
    the files of the input tree whose name ends in [".obj"]: the walk
    reaches the files of every directory at every depth, a name is taken
    exactly when it is some stem followed by the four characters [.obj],
    a name that is not is passed over without any effect, and [FILE.OBJ]
    is such a name.  The order is the one in which the tree lists its
    entries, a directory's own files before those of its
    sub-directories. *)
Theorem C6_walk_selects_obj_suffix (t : tree) :
  lookup w obj_dir = IsDir t ->
  loads (trace (final o))
  = map item_path (filter is_obj (walk_files (walk_tree obj_dir t)))
  /\ (forall root file,
        In (root, file) (walk_files (walk_tree obj_dir t)) <-> in_tree obj_dir t root file)
  /\ (forall p,
        In p (loads (trace (final o)))
        <-> exists root file,
              in_tree obj_dir t root file
              /\ Str.endswith ".obj" file = true /\ p = Path.join root file)
  /\ (forall file, Str.endswith ".obj" file = true <-> exists stem, file = stem ++ ".obj")
  /\ (forall root file st, Str.endswith ".obj" file = false -> visit_file w root file st = st)
  /\ (forall root file st,
        Str.endswith ".obj" file = true ->
        obj_files_found (visit_file w root file st) = S (obj_files_found st)
        /\ loads (trace (visit_file w root file st))
           = (loads (trace st) ++ [Path.join root file])%list)
  /\ Str.endswith ".obj" "FILE.OBJ" = false
  /\ (forall files dirs,
        t = Dir files dirs ->
        walk_tree obj_dir t
        = (obj_dir, map fst dirs, files)
            :: flat_map (fun d => walk_tree (Path.join obj_dir (fst d)) (snd d)) dirs).
Proof.
  intros Ht.
  pose proof (final_loads w cli t Ht) as Hloads. unfold obj_paths in Hloads.
  split; [exact Hloads|].
  split; [intros; apply walk_tree_in_tree|].
  split.
  { intros p. rewrite Hloads, in_map_iff. split.
    - intros [[root file] [Hp Hin]]. apply filter_In in Hin as [Hin Hobj].
      exists root, file. repeat split; auto. now apply walk_tree_in_tree.
    - intros [root [file [Hin [Hobj ->]]]]. exists (root, file). split; auto.
      apply filter_In. split; auto. now apply walk_tree_in_tree. }
  split; [intros; apply endswith_iff|].
  split; [intros root file st H; unfold visit_file; now rewrite H|].
  split.
  { intros root file st H. rewrite (visit_file_obj w root file st H). cbv zeta.
    destruct (loaded w (Path.join root file)); cbn [obj_files_found trace];
      (split; [reflexivity|]); unfold loads; rewrite ?flat_map_app; simpl;
      rewrite ?app_nil_r; reflexivity. }
  split; [reflexivity|].
  intros files dirs ->. simpl. f_equal.
  apply flat_map_ext. now intros [name sub].
Qed.

End Scenes.

(** ** Where the output goes, and running twice *)

Section Output.

Context `{L : Trimesh}.

Lemma join_model (name : string) :
  Path.join "model" name
  = if Str.startswith "/" name then name else "model/" ++ name.
Proof. unfold Path.join. now destruct (Str.startswith "/" name). Qed.

(** X12.  The input folder is the positional argument, [obj/] when there
    is none; the output name is the value of the flag, [model.glb] when
    there is none.  A run that exits 0 has called [os.makedirs('model')]
    first and has written the bytes of the exported scene at
    [os.path.join('model', output_name)], which is [model/<output-name>]
    when the output name does not start with [/]. *)
Theorem X12_relative_output_name_goes_under_model (w : World) (cli : Cli) :
  input_folder (parse_args cli)
  = match positional cli with Some p => p | None => "obj/" end
  /\ output_name (parse_args cli)
     = match output_name_flag cli with Some n => n | None => "model.glb" end
  /\ (forall t, lookup w (input_folder (parse_args cli)) = IsDir t ->
        loads (trace (final (main w cli)))
        = obj_paths (walk_tree (input_folder (parse_args cli)) t))
  /\ (exit_code (main w cli) = 0%Z ->
      exists data rest,
        export w (scene (final (main w cli)))
          (Path.join "model" (output_name (parse_args cli))) = Ok data
        /\ written (main w cli)
           = Some (Path.join "model" (output_name (parse_args cli)), data)
        /\ trace (final (main w cli)) = Makedirs "model" :: rest
        /\ In (Export (scene (final (main w cli)))
                 (Path.join "model" (output_name (parse_args cli)))) rest)
  /\ (Str.startswith "/" (output_name (parse_args cli)) = false ->
      Path.join "model" (output_name (parse_args cli))
      = "model/" ++ output_name (parse_args cli)).
Proof.
  split; [reflexivity|]. split; [reflexivity|].
  split; [intros t Ht; now apply final_loads|].
  split.
  - intros Hexit.
    ending_cases w cli;
      try discriminate.
    cbn [final written scene say exporting]. fold (output_glb_of cli).
    exists data.
    exists (emitted w (walk_files (walk_tree (obj_dir_of cli) t'))
              ++ [Export (scene (walked w cli t')) (output_glb_of cli)]
              ++ [Print ("Successfully combined "
                           ++ Str.of_nat (geometry_len (scene (walked w cli t')))
                           ++ " mesh(es) from '" ++ obj_dir_of cli ++ "' into "
                           ++ output_glb_of cli)])%list.
    repeat split; auto.
    + rewrite trace_say. unfold exporting; cbn [trace]. rewrite walked_trace.
      simpl. now rewrite <- app_assoc.
    + apply in_or_app; right. now left.
  - rewrite join_model. now intros ->.
Qed.

End Output.

(** ** The transform applied to each mesh, and the count that is reported *)

Lemma in_inserted `{L : Trimesh} (w : World) (items : list (string * string))
    (entry : string * Mesh) :
  In entry (inserted w items) ->
  exists item mesh,
    In item items /\ is_obj item = true /\ load w (item_path item) = Ok mesh
    /\ apply_transform Transform.rotation mesh = Ok (snd entry)
    /\ fst entry = node_name_of (item_path item).
Proof.
  unfold inserted. rewrite in_flat_map. intros [item [Hin H]].
  destruct (is_obj item) eqn:Hobj; [|contradiction].
  unfold loaded in H.
  destruct (load w (item_path item)) as [mesh|msg] eqn:Hload; [|contradiction].
  cbn [bind] in H.
  destruct (apply_transform Transform.rotation mesh) as [moved|msg] eqn:Hmove;
    [|contradiction].
  destruct H as [<- | []]. exists item, mesh. auto.
Qed.


(** C10, as the program has it.  With an input directory, the check after
    the walk ends the run with exit code 1, before any export is attempted
    and with nothing written, exactly when the scene holds no geometry; when
    it holds some, the export is called, and the run exits 1 only if the
    export raises.  On success the last line printed reports the scene's
    geometry count.  Neither the check nor the count uses the number of
    files: in the sample world a run over two files, one of which holds two
    geometries, exits 0 reporting three meshes, and a run over one file
    that loads without raising but holds no geometry exits 1. *)
Theorem C10_decision_uses_geometry_count :
  (forall (L : Trimesh) (w : World) (cli : Cli) (t : tree),
      lookup w (obj_dir_of cli) = IsDir t ->
      (exit_code (main w cli) = 1%Z
       <-> geometry_len (scene (final (main w cli))) = 0
           \/ exists why,
                export w (scene (final (main w cli))) (output_glb_of cli) = Raised why)
      /\ (geometry_len (scene (final (main w cli))) = 0
          <-> exit_code (main w cli) = 1%Z
              /\ forall e, In e (trace (final (main w cli))) -> is_export e = false)
      /\ (geometry_len (scene (final (main w cli))) = 0 -> written (main w cli) = None)
      /\ (geometry_len (scene (final (main w cli))) <> 0 ->
          In (Export (scene (final (main w cli))) (output_glb_of cli))
             (trace (final (main w cli))))
      /\ (exit_code (main w cli) = 0%Z ->
          last (printed (trace (final (main w cli)))) ""
          = "Successfully combined "
              ++ Str.of_nat (geometry_len (scene (final (main w cli))))
              ++ " mesh(es) from '" ++ obj_dir_of cli ++ "' into " ++ output_glb_of cli))
  /\ (exit_code (main sample_world (cli_of "clean" "out.glb")) = 0%Z
      /\ obj_files_found (final (main sample_world (cli_of "clean" "out.glb"))) = 2
      /\ geometry_len (scene (final (main sample_world (cli_of "clean" "out.glb")))) = 3
      /\ last (printed (trace (final (main sample_world (cli_of "clean" "out.glb"))))) ""
         = "Successfully combined 3 mesh(es) from 'clean' into model/out.glb")
  /\ (load sample_world "hollow/nothing.obj" = Ok 0
      /\ loads (trace (final (main sample_world (cli_of "hollow" "out.glb"))))
         = ["hollow/nothing.obj"]
      /\ obj_files_found (final (main sample_world (cli_of "hollow" "out.glb"))) = 1
      /\ geometry_len (scene (final (main sample_world (cli_of "hollow" "out.glb")))) = 0
      /\ exit_code (main sample_world (cli_of "hollow" "out.glb")) = 1%Z
      /\ last (printed (trace (final (main sample_world (cli_of "hollow" "out.glb"))))) ""
         = "No .obj files were successfully loaded.").
Proof.
  split.
  - intros L w cli t Ht. split; [apply (exit_1_iff w cli t Ht) | apply (decision_after_walk w cli t Ht)].
  - split; repeat split; reflexivity.
Qed.

(** ** Runs on the sample world *)

(** C7.  With [-o /tmp/out.glb] the run succeeds and the file is written
    at [/tmp/out.glb]: not under [model/], where the description of the
    command says the output is saved and where [os.makedirs] has just made
    sure there is a directory for it. *)
Lemma C7_absolute_output_name :
  exit_code (main sample_world (cli_of "clean" "/tmp/out.glb")) = 0%Z
  /\ written (main sample_world (cli_of "clean" "/tmp/out.glb"))
     = Some ("/tmp/out.glb", [Byte.x2a; Byte.x2a])
  /\ ~ exists data,
         written (main sample_world (cli_of "clean" "/tmp/out.glb"))
         = Some ("model/" ++ "/tmp/out.glb", data).
Proof.
  split; [reflexivity|]. split; [reflexivity|].
  intros [data H]. discriminate H.
Qed.

(** C10, as stated, fails: over the two files of [clean] the scene holds
    three geometries, the export under [readonly.glb] raises, and the run
    exits 1. *)
Lemma C10_export_failure_exits_1 :
  lookup sample_world (obj_dir_of (cli_of "clean" "readonly.glb")) = IsDir clean_tree
  /\ geometry_len (scene (final (main sample_world (cli_of "clean" "readonly.glb")))) = 3
  /\ export sample_world (scene (final (main sample_world (cli_of "clean" "readonly.glb"))))
       (output_glb_of (cli_of "clean" "readonly.glb"))
     = Raised "permission denied"
  /\ exit_code (main sample_world (cli_of "clean" "readonly.glb")) = 1%Z
  /\ ~ (exit_code (main sample_world (cli_of "clean" "readonly.glb")) = 1%Z
        <-> geometry_len (scene (final (main sample_world (cli_of "clean" "readonly.glb"))))
            = 0).
Proof.
  split; [reflexivity|]. split; [reflexivity|]. split; [reflexivity|].
  split; [reflexivity|].
  intros [H _]. specialize (H eq_refl). discriminate H.
Qed.

Lemma C3_witness :
  geometry_len new_scene = 0
  /\ exit_code (main sample_world (cli_of "empty" "out.glb")) = 1%Z
  /\ written (main sample_world (cli_of "empty" "out.glb")) = None
  /\ exit_code (main sample_world (cli_of "broken" "out.glb")) = 1%Z
  /\ exit_code (main sample_world (cli_of "nowhere" "out.glb")) = 1%Z.
Proof.
  destruct (C3_exit_codes sample_world (cli_of "empty" "out.glb") eq_refl)
    as (_ & _ & _ & _ & Hempty & _).
  destruct (C3_exit_codes sample_world (cli_of "broken" "out.glb") eq_refl)
    as (_ & _ & _ & _ & _ & Hbroken & _).
  destruct (C3_exit_codes sample_world (cli_of "nowhere" "out.glb") eq_refl)
    as (_ & _ & Hmissing & _).
  destruct (Hempty empty_tree eq_refl eq_refl) as (Hcode & Hfile & _).
  split; [reflexivity|]. split; [exact Hcode|]. split; [exact Hfile|].
  split; [exact (Hbroken broken_tree eq_refl eq_refl) | exact (Hmissing eq_refl)].
Defined.

Lemma C4_witness :
  In (Print "Error loading obj/sub/bad.obj: corrupt file")
     (trace (final (main sample_world cli_default)))
  /\ loads (trace (final (main sample_world cli_default)))
     = ["obj/a.obj"; "obj/sub/b.obj"; "obj/sub/bad.obj"; "obj/other/a.obj"]
  /\ exit_code (main sample_world cli_default) = 0%Z.
Proof.
  destruct (C4_load_errors_are_skipped sample_world cli_default sample_tree eq_refl)
    as (Herr & _ & Hloads & _ & Hexit & _).
  split; [|split; [exact Hloads|]].
  - apply (Herr ("obj/sub", "bad.obj") "corrupt file"); [|reflexivity|reflexivity].
    do 4 right. now left.
  - apply Hexit; [discriminate|]. eexists. reflexivity.
Defined.


Lemma C6_witness :
  loads (trace (final (main sample_world cli_default)))
  = ["obj/a.obj"; "obj/sub/b.obj"; "obj/sub/bad.obj"; "obj/other/a.obj"]
  /\ ~ In "obj/FILE.OBJ" (loads (trace (final (main sample_world cli_default)))).
Proof.
  destruct (C6_walk_selects_obj_suffix sample_world cli_default sample_tree eq_refl)
    as (Hloads & _).
  split; [exact Hloads|].
  rewrite Hloads. intros [H | [H | [H | [H | []]]]]; discriminate H.
Defined.

Lemma X12_witness :
  exists data,
    written (main sample_world cli_default) = Some ("model/" ++ "model.glb", data).
Proof.
  destruct (X12_relative_output_name_goes_under_model sample_world cli_default)
    as (_ & _ & _ & Hrun & Hrel).
  destruct (Hrun eq_refl) as (data & rest & _ & Hwritten & _).
  exists data. rewrite Hwritten. now rewrite (Hrel eq_refl).
Defined.

Lemma C9_witness :
  In (Makedirs "model") (trace (final (main sample_world (cli_of "empty" "out.glb"))))
  /\ exit_code (main sample_world (cli_of "empty" "out.glb")) = 1%Z
  /\ ~ In (Makedirs "model") (trace (final (main sample_world (cli_of "README.md" "out.glb")))).
Proof.
  destruct (C9_model_dir_made_iff_input_is_directory sample_world (cli_of "empty" "out.glb"))
    as (Hiff & _ & _).
  destruct (C9_model_dir_made_iff_input_is_directory sample_world (cli_of "README.md" "out.glb"))
    as (Hiff' & _ & _).
  split; [apply Hiff; reflexivity|]. split; [reflexivity|].
  intros H. apply Hiff' in H. discriminate H.
Defined.

Lemma C10_witness :
  geometry_len (scene (final (main sample_world (cli_of "hollow" "out.glb")))) = 0
  /\ written (main sample_world (cli_of "hollow" "out.glb")) = None.
Proof.
  destruct C10_decision_uses_geometry_count as (Hrun & _ & _).
  destruct (Hrun counting sample_world (cli_of "hollow" "out.glb") hollow_tree eq_refl)
    as (_ & _ & Hnone & _).
  split; [reflexivity | exact (Hnone eq_refl)].
Defined.

(** ** More on node names *)

Lemma append_nil_r (s : string) : s ++ "" = s.
Proof. induction s as [|c s IH]; simpl; [reflexivity | now rewrite IH]. Qed.

(** A string that holds the character splits at its last occurrence. *)
Lemma split_at_last (c : ascii) (s : string) :
  Str.mem c s = true -> exists a b, s = a ++ String c b /\ Str.mem c b = false.
Proof.
  induction s as [|x s IH]; simpl; [discriminate|].
  intros H. destruct (Str.mem c s) eqn:Hs.
  - destruct (IH eq_refl) as (a & b & -> & Hb). now exists (String x a), b.
  - rewrite orb_false_r in H. apply Ascii.eqb_eq in H as ->. now exists "", s.
Qed.

Lemma basename_no_sep (p : string) : Str.mem Path.sep (Path.basename p) = false.
Proof.
  destruct (Str.mem Path.sep p) eqn:Hp.
  - destruct (split_at_last _ _ Hp) as (a & b & -> & Hb).
    now rewrite basename_after_sep.
  - now rewrite basename_plain.
Qed.

Lemma mem_take (c : ascii) (n : nat) (s : string) :
  Str.mem c s = false -> Str.mem c (Str.take n s) = false.
Proof.
  revert s; induction n as [|n IH]; intros [|x s]; simpl; auto.
  intros H. apply orb_false_iff in H as [Hx Hs]. rewrite Hx. now apply IH.
Qed.

Lemma splitext_parts (q : string) :
  fst (Path.splitext q) ++ snd (Path.splitext q) = q.
Proof.
  unfold Path.splitext.
  destruct (Str.rfind Path.extsep q >? Str.rfind Path.sep q)%Z; cbv zeta;
    [destruct (Str.has_other _ _)|]; cbn [fst snd];
    auto using take_drop, append_nil_r.
Qed.

Lemma splitext_stem_no_sep (q : string) :
  Str.mem Path.sep q = false -> Str.mem Path.sep (fst (Path.splitext q)) = false.
Proof.
  intros H. unfold Path.splitext.
  destruct (Str.rfind Path.extsep q >? Str.rfind Path.sep q)%Z; cbv zeta;
    [destruct (Str.has_other _ _)|]; cbn [fst]; auto using mem_take.
Qed.

(** On a separator-free name whose stem is made of dots only (the empty
    stem among them), [splitext] finds no extension. *)
Lemma splitext_dots (stem : string) :
  Str.mem Path.sep stem = false ->
  Str.has_other Path.extsep stem = false ->
  Path.splitext (stem ++ ".obj") = (stem ++ ".obj", "").
Proof.
  intros Hsep Hdot. unfold Path.splitext.
  rewrite (rfind_absent Path.sep) by (rewrite mem_append, Hsep; reflexivity).
  change (stem ++ ".obj") with (stem ++ String Path.extsep "obj").
  rewrite rfind_last by reflexivity.
  replace (Z.of_nat (String.length stem) >? -1)%Z with true by (symmetry; apply Z.gtb_lt; lia).
  cbv zeta. rewrite Nat2Z.id. unfold Str.slice. simpl (Z.to_nat (-1 + 1)).
  rewrite take_app. simpl (Str.drop 0 stem). now rewrite Hdot.
Qed.

Section NodeNames.

Context `{L : Trimesh}.

(** X1.  The node name of a file [stem.obj] is [stem] when the stem has a
    character other than a dot, and the whole name [stem.obj] when it has
    none: for a file named [.obj] or [..obj] the extension is not
    stripped. *)
Theorem X1_node_name_of_obj_file (root stem : string) :
  Str.mem Path.sep stem = false ->
  node_name_of (Path.join root (stem ++ ".obj"))
  = if Str.has_other Path.extsep stem then stem else stem ++ ".obj".
Proof.
  intros Hsep. unfold node_name_of.
  rewrite basename_join by (rewrite mem_append, Hsep; reflexivity).
  destruct (Str.has_other Path.extsep stem) eqn:Hdot.
  - now rewrite splitext_obj.
  - now rewrite splitext_dots.
Qed.

(** The entries of the scene a run ends with carry node names of paths the
    run loaded. *)
Lemma final_entry_source (w : World) (cli : Cli) (entry : string * Mesh) :
  In entry (scene (final (main w cli))) ->
  exists path,
    In path (loads (trace (final (main w cli)))) /\ fst entry = node_name_of path.
Proof.
  intros Hin.
  destruct (lookup w (obj_dir_of cli)) as [| |t] eqn:Hl.
  1, 2: destruct (main_ending w cli); try congruence; destruct Hin.
  rewrite (final_scene w cli t Hl), walked_scene in Hin.
  apply in_inserted in Hin as (item & mesh & Hitem & Hobj & _ & _ & Hname).
  exists (item_path item). split; [|exact Hname].
  rewrite (final_loads w cli t Hl). unfold obj_paths.
  apply in_map. apply filter_In. auto.
Qed.

(** X2.  A node name never holds a path separator, and it is the base name
    of the path with a suffix cut off (the extension [splitext] found, or
    nothing); this holds for the name of every entry of the scene of every
    run. *)
Theorem X2_node_names_are_plain :
  (forall path,
      Str.mem Path.sep (node_name_of path) = false
      /\ node_name_of path ++ snd (Path.splitext (Path.basename path))
         = Path.basename path)
  /\ (forall (w : World) (cli : Cli) (entry : string * Mesh),
        In entry (scene (final (main w cli))) ->
        Str.mem Path.sep (fst entry) = false).
Proof.
  assert (Hplain : forall path, Str.mem Path.sep (node_name_of path) = false).
  { intros path. apply splitext_stem_no_sep, basename_no_sep. }
  split.
  - intros path. split; [apply Hplain | apply splitext_parts].
  - intros w cli entry Hin.
    destruct (final_entry_source w cli entry Hin) as (path & _ & ->). apply Hplain.
Qed.

End NodeNames.

(** ** Files that share a name, and where loaded paths lie *)

Lemma distinct_images_inj {X Y : Type} (image : X -> Y) (xs : list X) (a b : X) :
  NoDup (map image xs) -> In a xs -> In b xs -> image a = image b -> a = b.
Proof.
  induction xs as [|x xs IH]; intros Hd Ha Hb Heq; [destruct Ha|].
  cbn [map] in Hd. apply NoDup_cons_iff in Hd as [Hfresh Hd].
  destruct Ha as [-> | Ha], Hb as [-> | Hb]; auto.
  - exfalso. apply Hfresh. rewrite Heq. now apply in_map.
  - exfalso. apply Hfresh. rewrite <- Heq. now apply in_map.
Qed.

Lemma filter_of_map {X Y : Type} (f : X -> Y) (keep : Y -> bool) (xs : list X) :
  filter keep (map f xs) = map f (filter (fun x => keep (f x)) xs).
Proof.
  induction xs as [|x xs IH]; cbn [map filter]; auto.
  destruct (keep (f x)); cbn [map]; now rewrite IH.
Qed.

Lemma startswith_iff (p s : string) :
  Str.startswith p s = true <-> exists x, s = p ++ x.
Proof.
  unfold Str.startswith. split.
  - intros H. apply String.eqb_eq in H.
    remember (String.length p) as n. exists (Str.drop n s).
    rewrite <- H. symmetry. apply take_drop.
  - intros [x ->]. rewrite take_app. apply String.eqb_refl.
Qed.

Lemma startswith_join (a b : string) :
  Str.startswith "/" b = false -> Str.startswith a (Path.join a b) = true.
Proof.
  intros Hb. unfold Path.join. rewrite Hb. apply startswith_iff.
  destruct ((a =? "") || Str.endswith "/" a); eauto.
Qed.

Lemma startswith_trans (a b c : string) :
  Str.startswith a b = true -> Str.startswith b c = true -> Str.startswith a c = true.
Proof.
  rewrite !startswith_iff. intros [x ->] [y ->]. exists (x ++ y). apply append_assoc.
Qed.

Lemma endswith_join (suffix a b : string) :
  Str.endswith suffix b = true -> Str.endswith suffix (Path.join a b) = true.
Proof.
  rewrite !endswith_iff. intros [x ->]. unfold Path.join.
  destruct (Str.startswith "/" (x ++ suffix)); [now exists x|].
  destruct ((a =? "") || Str.endswith "/" a).
  - exists (a ++ x). now rewrite append_assoc.
  - exists (a ++ "/" ++ x). now rewrite !append_assoc.
Qed.

(** In a tree of plain names every directory of the walk lies under the top,
    and every file name is plain. *)
Lemma in_tree_under top t root file :
  in_tree top t root file -> plain_names t = true ->
  Str.startswith top root = true /\ Str.startswith "/" file = false.
Proof.
  induction 1 as [top files dirs file Hin | top files dirs name sub root file Hd Hsub IH];
    cbn [plain_names]; intros Hp; apply andb_true_iff in Hp as [Hfiles Hdirs].
  - split.
    + apply startswith_iff. exists "". symmetry. apply append_nil_r.
    + rewrite forallb_forall in Hfiles. apply negb_true_iff. now apply Hfiles.
  - rewrite forallb_forall in Hdirs. specialize (Hdirs _ Hd). cbn beta iota in Hdirs.
    apply andb_true_iff in Hdirs as [Hname Hplain]. apply negb_true_iff in Hname.
    destruct (IH Hplain) as [Hroot Hfile]. split; [|exact Hfile].
    eapply startswith_trans; [|exact Hroot]. now apply startswith_join.
Qed.

Section Paths.

Context `{L : Trimesh}.
Variables (w : World) (cli : Cli).

Lemma final_names t :
  lookup w (obj_dir_of cli) = IsDir t ->
  map fst (scene (final (main w cli)))
  = map (fun item => node_name_of (item_path item))
      (filter (fun item => load_ok w (item_path item))
         (filter is_obj (walk_files (walk_tree (obj_dir_of cli) t)))).
Proof.
  intros Ht. rewrite (final_scene w cli t Ht), walked_scene, inserted_names.
  unfold ok_paths. now rewrite filter_of_map, map_map.
Qed.

(** X3.  The node name of a file does not depend on the directory it is
    listed in.  So whenever the input tree lists the same [.obj] file name
    in two directories and both files load, the scene of the run holds two
    entries under one name. *)
Theorem X3_same_file_name_same_node_name (t : tree) (root1 root2 file : string) :
  lookup w (obj_dir_of cli) = IsDir t ->
  in_tree (obj_dir_of cli) t root1 file ->
  in_tree (obj_dir_of cli) t root2 file ->
  root1 <> root2 ->
  Str.mem Path.sep file = false ->
  Str.endswith ".obj" file = true ->
  load_ok w (Path.join root1 file) = true ->
  load_ok w (Path.join root2 file) = true ->
  node_name_of (Path.join root1 file) = node_name_of (Path.join root2 file)
  /\ ~ NoDup (map fst (scene (final (main w cli)))).
Proof.
  intros Ht H1 H2 Hne Hsep Hobj Hok1 Hok2.
  assert (Hsame : node_name_of (Path.join root1 file) = node_name_of (Path.join root2 file)).
  { unfold node_name_of. now rewrite !basename_join. }
  split; [exact Hsame|].
  rewrite (final_names t Ht). intros Hd. apply Hne.
  assert (Hin : forall root, in_tree (obj_dir_of cli) t root file ->
                load_ok w (Path.join root file) = true ->
                In (root, file)
                   (filter (fun item => load_ok w (item_path item))
                      (filter is_obj (walk_files (walk_tree (obj_dir_of cli) t))))).
  { intros root Hroot Hok. apply filter_In. split; [|exact Hok].
    apply filter_In. split; [now apply walk_tree_in_tree | exact Hobj]. }
  pose proof (distinct_images_inj _ _ (root1, file) (root2, file) Hd
                (Hin root1 H1 Hok1) (Hin root2 H2 Hok2) Hsame) as Heq.
  now inversion Heq.
Qed.

(** X4.  Every path a run hands to the loader ends in [.obj]; and when no
    name of the input tree starts with a separator, every such path starts
    with the input folder as it was given on the command line. *)
Theorem X4_loaded_paths_lie_under_input_folder :
  (forall p, In p (loads (trace (final (main w cli)))) -> Str.endswith ".obj" p = true)
  /\ (forall t p,
        lookup w (obj_dir_of cli) = IsDir t ->
        plain_names t = true ->
        In p (loads (trace (final (main w cli)))) ->
        Str.startswith (obj_dir_of cli) p = true).
Proof.
  split.
  - intros p Hin.
    destruct (lookup w (obj_dir_of cli)) as [| |t] eqn:Hl.
    1, 2: destruct (main_ending w cli); try congruence; cbn in Hin; tauto.
    rewrite (final_loads w cli t Hl) in Hin. unfold obj_paths in Hin.
    apply in_map_iff in Hin as ([root file] & <- & Hin).
    apply filter_In in Hin as [_ Hobj]. now apply endswith_join.
  - intros t p Ht Hplain Hin.
    rewrite (final_loads w cli t Ht) in Hin. unfold obj_paths in Hin.
    apply in_map_iff in Hin as ([root file] & <- & Hin).
    apply filter_In in Hin as [Hin _]. apply walk_tree_in_tree in Hin.
    destruct (in_tree_under _ _ _ _ Hin Hplain) as [Hroot Hfile].
    eapply startswith_trans; [exact Hroot|]. now apply startswith_join.
Qed.

End Paths.

(** ** The input folder with and without its trailing separator *)

Lemma join_after_sep (d b : string) :
  d <> "" -> Str.endswith "/" d = false -> Path.join (d ++ "/") b = Path.join d b.
Proof.
  intros Hd Hend. unfold Path.join. destruct (Str.startswith "/" b); [reflexivity|].
  assert (Hs : Str.endswith "/" (d ++ "/") = true) by (apply endswith_iff; now exists d).
  rewrite Hs, orb_true_r, Hend, orb_false_r.
  destruct (d =? "") eqn:He; [apply String.eqb_eq in He; contradiction|].
  apply append_assoc.
Qed.

Lemma walk_files_app a b : walk_files (a ++ b) = (walk_files a ++ walk_files b)%list.
Proof. apply flat_map_app. Qed.

(** The files of a walk: those of the top directory, then those of the walks
    of its sub-directories. *)
Lemma walk_files_tree top files dirs :
  walk_files (walk_tree top (Dir files dirs))
  = (map (pair top) files
       ++ flat_map (fun d => walk_files (walk_tree (Path.join top (fst d)) (snd d))) dirs)%list.
Proof.
  cbn [walk_tree]. change (walk_files ((top, map fst dirs, files) :: ?l))
    with (map (pair top) files ++ walk_files l)%list.
  f_equal. induction dirs as [|[name sub] dirs IH]; [reflexivity|].
  cbn [flat_map fst snd]. now rewrite walk_files_app, IH.
Qed.

Section TrailingSeparator.

Context `{L : Trimesh}.
Variable w : World.

Lemma visit_file_by_path root1 root2 file st :
  Path.join root1 file = Path.join root2 file ->
  visit_file w root1 file st = visit_file w root2 file st.
Proof. intros H. unfold visit_file. now rewrite H. Qed.

Lemma visit_files_by_path items1 items2 :
  Forall2 (fun i1 i2 => snd i1 = snd i2 /\ item_path i1 = item_path i2) items1 items2 ->
  forall st, visit_files w items1 st = visit_files w items2 st.
Proof.
  induction 1 as [|[r1 f1] [r2 f2] l1 l2 [Hf Hp] _ IH]; intros st; [reflexivity|].
  cbn [snd] in Hf. subst f2. unfold item_path in Hp; cbn [fst snd] in Hp.
  unfold visit_files in *. cbn [fold_left fst snd].
  rewrite (visit_file_by_path r1 r2 f1 st Hp). apply IH.
Qed.

(** The run's exit code and the file it writes, from the state the walk
    ends in. *)
Lemma run_result (cli : Cli) (t : tree) :
  lookup w (obj_dir_of cli) = IsDir t ->
  exit_code (main w cli)
  = (if (geometry_len (scene (walked w cli t)) =? 0)%nat then 1%Z
     else match export w (scene (walked w cli t)) (output_glb_of cli) with
          | Ok _ => 0%Z
          | Raised _ => 1%Z
          end)
  /\ written (main w cli)
     = (if (geometry_len (scene (walked w cli t)) =? 0)%nat then None
        else match export w (scene (walked w cli t)) (output_glb_of cli) with
             | Ok data => Some (output_glb_of cli, data)
             | Raised _ => None
             end).
Proof.
  intros Ht. ending_cases w cli; try congruence; replace t' with t in * by congruence;
    cbn [exit_code written exit_with].
  1, 2: apply Nat.eqb_eq in Hg; now rewrite Hg.
  1, 2: apply Nat.eqb_neq in Hg; now rewrite Hg, He.
Qed.

(** X5.  Naming the input folder with or without a trailing separator
    ([obj] or [obj/]) changes nothing but the text of the messages that
    quote it: the same paths are loaded in the same order, the scene is
    the same, and so are the exit code and the file written. *)
Theorem X5_trailing_separator_is_immaterial (cli1 cli2 : Cli) (t : tree) :
  obj_dir_of cli1 <> "" ->
  Str.endswith "/" (obj_dir_of cli1) = false ->
  obj_dir_of cli2 = obj_dir_of cli1 ++ "/" ->
  output_name (parse_args cli2) = output_name (parse_args cli1) ->
  lookup w (obj_dir_of cli1) = IsDir t ->
  lookup w (obj_dir_of cli2) = IsDir t ->
  loads (trace (final (main w cli1))) = loads (trace (final (main w cli2)))
  /\ scene (final (main w cli1)) = scene (final (main w cli2))
  /\ obj_files_found (final (main w cli1)) = obj_files_found (final (main w cli2))
  /\ exit_code (main w cli1) = exit_code (main w cli2)
  /\ written (main w cli1) = written (main w cli2).
Proof.
  intros Hd Hend Hdir Hname Ht1 Ht2.
  assert (Hjoin : forall b, Path.join (obj_dir_of cli2) b = Path.join (obj_dir_of cli1) b).
  { intros b. rewrite Hdir. now apply join_after_sep. }
  assert (Hwalk : walked w cli1 t = walked w cli2 t).
  { unfold walked, state_after. apply visit_files_by_path.
    clear Ht1 Ht2. destruct t as [files dirs]. rewrite !walk_files_tree.
    apply Forall2_app.
    - induction files as [|f files IH]; cbn [map]; [constructor|].
      constructor; [|exact IH].
      split; [reflexivity|]. unfold item_path; cbn [fst snd]. now rewrite Hjoin.
    - replace (flat_map (fun d => walk_files (walk_tree (Path.join (obj_dir_of cli2) (fst d)) (snd d))) dirs)
        with (flat_map (fun d => walk_files (walk_tree (Path.join (obj_dir_of cli1) (fst d)) (snd d))) dirs)
        by (apply flat_map_ext; intros d; now rewrite Hjoin).
      generalize (flat_map (fun d => walk_files (walk_tree (Path.join (obj_dir_of cli1) (fst d)) (snd d))) dirs).
      intros l. induction l; constructor; auto. }
  assert (Hout : output_glb_of cli1 = output_glb_of cli2).
  { unfold output_glb_of. now rewrite Hname. }
  destruct (run_result cli1 t Ht1) as [Hc1 Hw1], (run_result cli2 t Ht2) as [Hc2 Hw2].
  split.
  { rewrite (final_loads w cli1 t Ht1), (final_loads w cli2 t Ht2).
    pose proof (f_equal (fun st => loads (trace st)) Hwalk) as Hl. cbv beta in Hl.
    rewrite !walked_trace in Hl. cbn [loads flat_map app] in Hl.
    fold (loads (emitted w (walk_files (walk_tree (obj_dir_of cli1) t)))) in Hl.
    fold (loads (emitted w (walk_files (walk_tree (obj_dir_of cli2) t)))) in Hl.
    rewrite !loads_emitted in Hl. exact Hl. }
  split; [rewrite (final_scene w cli1 t Ht1), (final_scene w cli2 t Ht2); now rewrite Hwalk|].
  split.
  { rewrite (final_found w cli1 t Ht1), (final_found w cli2 t Ht2), <- !walked_found with (w := w).
    now rewrite Hwalk. }
  split; [rewrite Hc1, Hc2, Hwalk, Hout; reflexivity|].
  rewrite Hw1, Hw2, Hwalk, Hout. reflexivity.
Qed.

End TrailingSeparator.

(** ** The order of events, and what is printed *)

Section Events.

Context `{L : Trimesh}.
Variables (w : World) (cli : Cli).

Lemma loads_app a b : loads (a ++ b) = (loads a ++ loads b)%list.
Proof. apply flat_map_app. Qed.

Lemma printed_app a b : printed (a ++ b) = (printed a ++ printed b)%list.
Proof. apply flat_map_app. Qed.

(** X6.  The events of a run come in this order: first those of the walk
    (none when the input path is refused), among which there is no export;
    then either one printed line, or the one call of [scene.export], on the
    scene the walk has left and the output path, followed by one printed
    line.  So the export is called at most once, nothing is loaded after
    it, and every run ends by printing exactly one line. *)
Theorem X6_export_comes_last_and_once :
  exists walk_part tail,
    trace (final (main w cli)) = (walk_part ++ tail)%list
    /\ (forall e, In e walk_part -> is_export e = false)
    /\ loads walk_part = loads (trace (final (main w cli)))
    /\ ((exists line, tail = [Print line])
        \/ (exists line,
              tail = [Export (scene (final (main w cli))) (output_glb_of cli); Print line])).
Proof.
  assert (Hquiet : forall t e, In e (trace (walked w cli t)) -> is_export e = false).
  { intros t e He. apply in_walked_trace in He as [-> | [He _]]; auto. }
  ending_cases w cli; cbn [final exit_with scene say exporting trace].
  1, 2: exists []; eexists; (split; [reflexivity|]);
    (split; [intros e []|]); (split; [reflexivity|]); left; eexists; reflexivity.
  1, 2: exists (trace (walked w cli t')); eexists;
    (split; [reflexivity|]);
    (split; [apply Hquiet|]);
    (split; [rewrite loads_app; cbn; now rewrite app_nil_r|]);
    left; eexists; reflexivity.
  1, 2: exists (trace (walked w cli t')); eexists;
    (split; [rewrite <- app_assoc; reflexivity|]);
    (split; [apply Hquiet|]);
    (split; [rewrite !loads_app; cbn; now rewrite !app_nil_r|]);
    right; eexists; reflexivity.
Qed.

Lemma printed_emitted items :
  printed (emitted w items) = flat_map (lines_for w) (map item_path (filter is_obj items)).
Proof.
  induction items as [|item items IH]; [reflexivity|].
  change (item :: items) with ([item] ++ items)%list.
  rewrite emitted_app, printed_app, filter_app, map_app, flat_map_app, IH. f_equal.
  cbn [emitted flat_map filter]. unfold lines_for.
  destruct (is_obj item); cbn [map flat_map app printed]; [|reflexivity].
  destruct (loaded w (item_path item)); reflexivity.
Qed.

Lemma last_printed_say st line : last (printed (trace (say st line))) "" = line.
Proof. rewrite trace_say, printed_app. apply last_last. Qed.

(** X7.  What a run prints.  When the input path is missing or not a
    directory: the one line saying so.  Otherwise: for each [.obj] file of
    the tree, in the order of the walk, the line announcing it, followed
    when its [try] block raised by the line with the path and the
    exception's text; then one closing line. *)
Theorem X7_printed_lines :
  (lookup w (obj_dir_of cli) = Missing ->
   printed (trace (final (main w cli)))
   = ["Error: Input directory '" ++ obj_dir_of cli ++ "' does not exist."])
  /\ (lookup w (obj_dir_of cli) = NotDir ->
      printed (trace (final (main w cli)))
      = ["Error: '" ++ obj_dir_of cli ++ "' is not a directory."])
  /\ (forall t, lookup w (obj_dir_of cli) = IsDir t ->
        printed (trace (final (main w cli)))
        = (flat_map (lines_for w) (obj_paths (walk_tree (obj_dir_of cli) t))
             ++ [last (printed (trace (final (main w cli)))) ""])%list).
Proof.
  assert (Hwalk : forall t,
    printed (trace (walked w cli t))
    = flat_map (lines_for w) (obj_paths (walk_tree (obj_dir_of cli) t))).
  { intros t. rewrite walked_trace. cbn [printed flat_map app].
    apply printed_emitted. }
  split; [|split].
  - intros H. ending_cases w cli; try congruence. reflexivity.
  - intros H. ending_cases w cli; try congruence. reflexivity.
  - intros t Ht. ending_cases w cli; try congruence; replace t' with t in * by congruence;
      cbn [final exit_with]; rewrite last_printed_say, trace_say, printed_app;
      unfold exporting; cbn [trace]; rewrite ?printed_app, Hwalk;
      cbn [printed flat_map app]; rewrite ?app_nil_r; reflexivity.
Qed.

End Events.

(** ** Counting the files *)

Section Counting.

Context `{L : Trimesh}.
Variable w : World.

Lemma error_lines_for path :
  length (filter is_error_line (lines_for w path))
  = if load_ok w path then 0 else 1.
Proof.
  unfold lines_for, load_ok.
  destruct (loaded w path); reflexivity.
Qed.

Lemma loading_lines_for path :
  length (filter is_loading_line (lines_for w path)) = 1.
Proof.
  unfold lines_for. destruct (loaded w path); reflexivity.
Qed.

Lemma count_error_lines paths :
  (length (ok_paths w paths)
   + length (filter is_error_line (flat_map (lines_for w) paths)) = length paths)%nat.
Proof.
  induction paths as [|p paths IH]; [reflexivity|].
  cbn [flat_map]. rewrite filter_app, length_app, error_lines_for.
  unfold ok_paths in *. cbn [filter]. destruct (load_ok w p); cbn [length]; lia.
Qed.

Lemma count_loading_lines paths :
  length (filter is_loading_line (flat_map (lines_for w) paths)) = length paths.
Proof.
  induction paths as [|p paths IH]; [reflexivity|].
  cbn [flat_map]. rewrite filter_app, length_app, loading_lines_for, IH. reflexivity.
Qed.

Lemma printed_state_after done :
  printed (trace (state_after w done))
  = flat_map (lines_for w) (map item_path (filter is_obj done)).
Proof.
  unfold state_after. rewrite run_trace. cbn [printed flat_map app].
  apply printed_emitted.
Qed.

(** X8.  The counter of the walk accounts for every file tried.  After any
    number of files visited, [obj_files_found] is the number of visited
    names ending in [.obj], the number of calls to the loader, and the
    number of announcing lines printed; and it is the number of entries of
    the scene plus the number of error lines printed, so that the scene
    never holds more entries than files were found.  The same holds of the
    state a run over an input directory ends in. *)
Theorem X8_every_file_is_accounted_for (cli : Cli) (t : tree)
    (done rest : list (string * string)) :
  lookup w (obj_dir_of cli) = IsDir t ->
  walk_files (walk_tree (obj_dir_of cli) t) = (done ++ rest)%list ->
  obj_files_found (state_after w done) = length (filter is_obj done)
  /\ obj_files_found (state_after w done) = length (loads (trace (state_after w done)))
  /\ obj_files_found (state_after w done) = loading_lines (trace (state_after w done))
  /\ (obj_files_found (state_after w done)
      = length (scene (state_after w done)) + error_lines (trace (state_after w done)))%nat
  /\ (length (scene (state_after w done)) <= obj_files_found (state_after w done))%nat
  /\ (obj_files_found (final (main w cli))
      = length (scene (final (main w cli))) + error_lines (trace (final (main w cli))))%nat.
Proof.
  intros Ht Hsplit.
  assert (Hfound : forall items,
    obj_files_found (state_after w items) = length (filter is_obj items)).
  { intros items. unfold state_after. now rewrite run_found. }
  assert (Hsum : forall items,
    (obj_files_found (state_after w items)
     = length (scene (state_after w items)) + error_lines (trace (state_after w items)))%nat).
  { intros items. unfold error_lines. rewrite printed_state_after, Hfound.
    unfold state_after at 1. rewrite run_scene. cbn [scene new_scene app].
    rewrite (Forall2_length (inserted_entries w items)).
    rewrite <- (length_map item_path (filter is_obj items)).
    symmetry. apply count_error_lines. }
  split; [apply Hfound|].
  split.
  { rewrite Hfound. unfold state_after. rewrite run_trace. cbn [trace].
    rewrite loads_app, loads_emitted. cbn [loads flat_map app]. now rewrite length_map. }
  split.
  { rewrite Hfound. unfold loading_lines. rewrite printed_state_after, count_loading_lines.
    now rewrite length_map. }
  split; [apply Hsum|].
  split; [rewrite (Hsum done); lia|].
  specialize (Hsum (walk_files (walk_tree (obj_dir_of cli) t))).
  fold (walked w cli t) in Hsum. unfold error_lines in *.
  ending_cases w cli; try congruence; replace t' with t in * by congruence;
    cbn [final exit_with scene obj_files_found say exporting trace];
    rewrite !printed_app; cbn [printed flat_map app]; rewrite ?app_nil_r;
    rewrite filter_app, length_app; cbn [filter]; rewrite Hsum;
    cbn; lia.
Qed.

End Counting.

(** ** The closing line *)

Section ClosingLine.

Context `{L : Trimesh}.
Variables (w : World) (cli : Cli).

(** [trimesh.Scene()] starts with no geometry. *)
Hypothesis new_scene_empty : geometry_len new_scene = 0.

Local Abbreviation o := (main w cli).
Local Abbreviation obj_dir := (obj_dir_of cli).
Local Abbreviation output_glb := (output_glb_of cli).
Local Abbreviation closing := (last (printed (trace (final (main w cli)))) "").

Lemma no_paths_no_geometry t :
  obj_paths (walk_tree obj_dir t) = [] -> geometry_len (scene (walked w cli t)) = 0.
Proof.
  intros H. rewrite walked_scene_nil; [exact new_scene_empty|]. now rewrite H.
Qed.

Lemma found_is_0 t :
  obj_files_found (walked w cli t) = 0 <-> obj_paths (walk_tree obj_dir t) = [].
Proof.
  rewrite walked_found. split; [apply length_zero_iff_nil | intros ->; reflexivity].
Qed.

(** X9.  The last line of a run over an input directory tells how it
    ended.  It is the line [No .obj files found ...] exactly when the tree
    holds no file whose name ends in [.obj]; the line [No .obj files were
    successfully loaded.] exactly when it holds some and the scene is
    left without geometry; an [Error exporting scene to ...] line exactly
    when the scene holds geometry and the export raised; and the
    [Successfully combined ...] line exactly when the run exits 0. *)
Theorem X9_closing_line_tells_the_ending (t : tree) :
  lookup w obj_dir = IsDir t ->
  (closing = "No .obj files found in directory '" ++ obj_dir ++ "'."
   <-> obj_paths (walk_tree obj_dir t) = [])
  /\ (closing = "No .obj files were successfully loaded."
      <-> obj_paths (walk_tree obj_dir t) <> [] /\ geometry_len (scene (final o)) = 0)
  /\ ((exists why, closing = "Error exporting scene to " ++ output_glb ++ ": " ++ why)
      <-> geometry_len (scene (final o)) <> 0
          /\ exists why, export w (scene (final o)) output_glb = Raised why)
  /\ (closing = "Successfully combined " ++ Str.of_nat (geometry_len (scene (final o)))
                  ++ " mesh(es) from '" ++ obj_dir ++ "' into " ++ output_glb
      <-> exit_code o = 0%Z).
Proof.
  intros Ht.
  ending_cases w cli; try congruence; replace t' with t in * by congruence;
    cbn [final exit_with exit_code]; rewrite last_printed_say;
    cbn [scene say exporting].
  - apply found_is_0 in Hf.
    split; [tauto|]. split; [split; [intros H; discriminate H | tauto]|].
    split; [split; [intros [why H]; discriminate H | tauto]|].
    split; intros H; discriminate H.
  - assert (Hsome : obj_paths (walk_tree obj_dir t) <> [])
      by (intros H; now apply found_is_0 in H).
    split; [split; [intros H; discriminate H | tauto]|].
    split; [tauto|].
    split; [split; [intros [why H]; discriminate H | tauto]|].
    split; intros H; discriminate H.
  - assert (Hsome : obj_paths (walk_tree obj_dir t) <> [])
      by (intros H; now apply no_paths_no_geometry in H).
    split; [split; [intros H; discriminate H | tauto]|].
    split; [split; [intros H; discriminate H | tauto]|].
    split; [split; [intros [why H]; discriminate H | intros [_ [why H]]; congruence]|].
    tauto.
  - assert (Hsome : obj_paths (walk_tree obj_dir t) <> [])
      by (intros H; now apply no_paths_no_geometry in H).
    split; [split; [intros H; discriminate H | tauto]|].
    split; [split; [intros H; discriminate H | tauto]|].
    split; [split; [intros _; split; [exact Hg | now exists msg] | intros _; now exists msg]|].
    split; intros H; discriminate H.
Qed.

End ClosingLine.

(** ** What the scene depends on *)

Section Frame.

Context `{L : Trimesh}.

Lemma visit_files_obj_only (w : World) (items : list (string * string)) :
  forall st, visit_files w items st = visit_files w (filter is_obj items) st.
Proof.
  induction items as [|[root file] items IH]; intros st; [reflexivity|].
  unfold is_obj at 1. cbn [filter snd].
  destruct (Str.endswith ".obj" file) eqn:Hobj.
  - unfold visit_files in *. cbn [fold_left]. apply IH.
  - unfold visit_files in *. cbn [fold_left fst snd].
    rewrite (visit_file_other w root file st Hobj). apply IH.
Qed.

Lemma inserted_ok_only (w : World) (items : list (string * string)) :
  inserted w items
  = inserted w (filter (fun item => is_obj item && load_ok w (item_path item)) items).
Proof.
  induction items as [|item items IH]; [reflexivity|].
  cbn [filter inserted flat_map]. fold (inserted w items). unfold load_ok at 1.
  destruct (is_obj item) eqn:Hobj; cbn [andb]; [|exact IH].
  destruct (loaded w (item_path item)) as [mesh|why] eqn:Hload; [|exact IH].
  cbn [inserted flat_map]. rewrite Hobj, Hload.
  fold (inserted w (filter (fun item => is_obj item && load_ok w (item_path item)) items)).
  now rewrite IH.
Qed.

(** X10.  Files that are not taken have no effect at all: the state of the
    walk (scene, counter and trace) is the one the walk reaches on the
    files whose name ends in [.obj] alone.  Files whose [try] block raises
    leave no mark on the scene: it is the one reached on the files that
    load alone. *)
Theorem X10_other_files_leave_no_mark (w : World) (done : list (string * string)) :
  state_after w done = state_after w (filter is_obj done)
  /\ scene (state_after w done)
     = scene (state_after w
                (filter (fun item => is_obj item && load_ok w (item_path item)) done)).
Proof.
  split.
  - unfold state_after. apply visit_files_obj_only.
  - unfold state_after. rewrite !run_scene. f_equal. apply inserted_ok_only.
Qed.

Lemma inserted_ext (w1 w2 : World) (items : list (string * string)) :
  (forall p, load w1 p = load w2 p) -> inserted w1 items = inserted w2 items.
Proof.
  intros H. unfold inserted. apply flat_map_ext. intros item.
  unfold loaded. now rewrite H.
Qed.

(** X11.  The order in which the file system lists the files decides the
    order of the scene and nothing else: two runs over trees whose walks
    meet the same files in different orders, with a loader that gives the
    same results, end with the same entries in their scenes (each as many
    times), the same paths loaded and the same count of files found. *)
Theorem X11_listing_order_only_reorders (w1 w2 : World) (cli : Cli) (t1 t2 : tree) :
  lookup w1 (obj_dir_of cli) = IsDir t1 ->
  lookup w2 (obj_dir_of cli) = IsDir t2 ->
  (forall p, load w1 p = load w2 p) ->
  Permutation (walk_files (walk_tree (obj_dir_of cli) t1))
              (walk_files (walk_tree (obj_dir_of cli) t2)) ->
  Permutation (scene (final (main w1 cli))) (scene (final (main w2 cli)))
  /\ Permutation (loads (trace (final (main w1 cli)))) (loads (trace (final (main w2 cli))))
  /\ obj_files_found (final (main w1 cli)) = obj_files_found (final (main w2 cli)).
Proof.
  intros Ht1 Ht2 Hload Hperm.
  assert (Hpaths : Permutation (obj_paths (walk_tree (obj_dir_of cli) t1))
                               (obj_paths (walk_tree (obj_dir_of cli) t2))).
  { unfold obj_paths. apply Permutation_map.
    clear -Hperm. induction Hperm; cbn [filter];
      repeat match goal with |- context [is_obj ?x] => destruct (is_obj x) end;
      eauto using Permutation. }
  split; [|split].
  - rewrite (final_scene w1 cli t1 Ht1), (final_scene w2 cli t2 Ht2), !walked_scene.
    rewrite (inserted_ext w1 w2 _ Hload). unfold inserted.
    now apply Permutation_flat_map.
  - now rewrite (final_loads w1 cli t1 Ht1), (final_loads w2 cli t2 Ht2).
  - rewrite (final_found w1 cli t1 Ht1), (final_found w2 cli t2 Ht2).
    now apply Permutation_length.
Qed.

End Frame.

(** ** More runs on the sample worlds *)

Lemma X1_witness :
  node_name_of (Path.join "obj/" ("chair.v2" ++ ".obj")) = "chair.v2"
  /\ node_name_of (Path.join "obj/" (".." ++ ".obj")) = "...obj".
Proof.
  split.
  - exact (X1_node_name_of_obj_file "obj/" "chair.v2" eq_refl).
  - exact (X1_node_name_of_obj_file "obj/" ".." eq_refl).
Defined.

Lemma X2_witness :
  Str.mem Path.sep (node_name_of "obj/sub/b.obj") = false
  /\ Str.mem Path.sep (fst ("b", 2)) = false.
Proof.
  destruct (@X2_node_names_are_plain counting) as [Hname Hentry].
  split; [apply Hname|].
  apply (Hentry sample_world cli_default ("b", 2)). right. now left.
Defined.

Lemma X3_witness :
  node_name_of (Path.join "obj/" "a.obj") = node_name_of (Path.join "obj/other" "a.obj")
  /\ ~ NoDup (map fst (scene (final (main sample_world cli_default)))).
Proof.
  apply (X3_same_file_name_same_node_name sample_world cli_default sample_tree
           "obj/" "obj/other" "a.obj"); try reflexivity.
  - apply in_tree_here. now left.
  - apply in_tree_sub with (name := "other") (sub := Dir ["a.obj"] []); [right; now left|].
    apply in_tree_here. now left.
  - discriminate.
Defined.

Lemma X4_witness :
  Str.endswith ".obj" "obj/sub/b.obj" = true
  /\ Str.startswith (obj_dir_of cli_default) "obj/sub/b.obj" = true.
Proof.
  destruct (X4_loaded_paths_lie_under_input_folder sample_world cli_default)
    as [Hends Hunder].
  assert (Hin : In "obj/sub/b.obj" (loads (trace (final (main sample_world cli_default)))))
    by (right; now left).
  split; [exact (Hends _ Hin) | exact (Hunder sample_tree _ eq_refl eq_refl Hin)].
Defined.

Lemma X5_witness :
  loads (trace (final (main (world_listing clean_tree) (cli_of "obj" "out.glb"))))
  = loads (trace (final (main (world_listing clean_tree) (cli_of "obj/" "out.glb"))))
  /\ scene (final (main (world_listing clean_tree) (cli_of "obj" "out.glb")))
     = scene (final (main (world_listing clean_tree) (cli_of "obj/" "out.glb")))
  /\ exit_code (main (world_listing clean_tree) (cli_of "obj" "out.glb"))
     = exit_code (main (world_listing clean_tree) (cli_of "obj/" "out.glb")).
Proof.
  assert (Hname : obj_dir_of (cli_of "obj" "out.glb") <> "") by discriminate.
  destruct (X5_trailing_separator_is_immaterial (world_listing clean_tree)
              (cli_of "obj" "out.glb") (cli_of "obj/" "out.glb") clean_tree
              Hname eq_refl eq_refl eq_refl eq_refl eq_refl)
    as (Hloads & Hscene & _ & Hcode & _).
  split; [exact Hloads|]. split; [exact Hscene | exact Hcode].
Defined.

Lemma X6_witness :
  exists walk_part tail,
    trace (final (main sample_world cli_default)) = (walk_part ++ tail)%list
    /\ (forall e, In e walk_part -> is_export e = false)
    /\ loads walk_part = loads (trace (final (main sample_world cli_default)))
    /\ ((exists line, tail = [Print line])
        \/ (exists line,
              tail = [Export (scene (final (main sample_world cli_default)))
                             (output_glb_of cli_default);
                      Print line])).
Proof. exact (X6_export_comes_last_and_once sample_world cli_default). Defined.

Lemma X7_witness :
  printed (trace (final (main sample_world (cli_of "broken" "out.glb"))))
  = ["Loading broken/bad.obj as node 'bad'";
     "Error loading broken/bad.obj: corrupt file";
     "No .obj files were successfully loaded."].
Proof.
  destruct (X7_printed_lines sample_world (cli_of "broken" "out.glb")) as (_ & _ & Hdir).
  rewrite (Hdir broken_tree eq_refl). reflexivity.
Defined.

Lemma X8_witness :
  obj_files_found (state_after sample_world [("obj/", "a.obj"); ("obj/", "notes.txt")]) = 1
  /\ (obj_files_found (final (main sample_world cli_default))
      = length (scene (final (main sample_world cli_default)))
        + error_lines (trace (final (main sample_world cli_default))))%nat.
Proof.
  destruct (X8_every_file_is_accounted_for sample_world cli_default sample_tree
              [("obj/", "a.obj"); ("obj/", "notes.txt")]
              [("obj/", "FILE.OBJ"); ("obj/sub", "b.obj"); ("obj/sub", "bad.obj");
               ("obj/other", "a.obj")]
              eq_refl eq_refl) as (Hfound & _ & _ & _ & _ & Hfinal).
  split; [exact Hfound | exact Hfinal].
Defined.

Lemma X9_witness :
  last (printed (trace (final (main sample_world (cli_of "empty" "out.glb"))))) ""
  = "No .obj files found in directory '" ++ obj_dir_of (cli_of "empty" "out.glb") ++ "'.".
Proof.
  destruct (X9_closing_line_tells_the_ending sample_world (cli_of "empty" "out.glb")
              eq_refl empty_tree eq_refl) as (Hnone & _).
  apply Hnone. reflexivity.
Defined.

Lemma X10_witness :
  scene (state_after sample_world
           [("obj/", "a.obj"); ("obj/", "notes.txt"); ("obj/sub", "bad.obj")])
  = scene (state_after sample_world [("obj/", "a.obj")]).
Proof.
  destruct (X10_other_files_leave_no_mark sample_world
              [("obj/", "a.obj"); ("obj/", "notes.txt"); ("obj/sub", "bad.obj")])
    as [_ Hscene].
  exact Hscene.
Defined.

Lemma X11_witness :
  Permutation (scene (final (main (world_listing pair_tree) cli_default)))
              (scene (final (main (world_listing swapped_tree) cli_default)))
  /\ obj_files_found (final (main (world_listing pair_tree) cli_default))
     = obj_files_found (final (main (world_listing swapped_tree) cli_default)).
Proof.
  assert (Hperm : Permutation
            (walk_files (walk_tree (obj_dir_of cli_default) pair_tree))
            (walk_files (walk_tree (obj_dir_of cli_default) swapped_tree))).
  { apply Permutation_sym.
    exact (Permutation_cons_append [("obj/", "a.obj"); ("obj/", "bad.obj")] ("obj/", "b.obj")). }
  destruct (X11_listing_order_only_reorders (world_listing pair_tree)
              (world_listing swapped_tree) cli_default pair_tree swapped_tree
              eq_refl eq_refl (fun _ => eq_refl) Hperm) as (Hscene & _ & Hfound).
  split; [exact Hscene | exact Hfound].
Defined.

(** ** The scene graph under insertions of single meshes *)

Lemma put_node_names {M : Type} (name : string) (mesh : M) (graph : list (string * M))
    (x : string) :
  In x (map fst (put_node name mesh graph)) <-> x = name \/ In x (map fst graph).
Proof.
  induction graph as [|[name' mesh'] graph IH]; cbn [put_node map fst In].
  - intuition congruence.
  - destruct (name =? name') eqn:E; cbn [map fst In].
    + apply String.eqb_eq in E. subst name'. intuition congruence.
    + rewrite IH. intuition congruence.
Qed.

Lemma put_node_distinct {M : Type} (name : string) (mesh : M) (graph : list (string * M)) :
  NoDup (map fst graph) -> NoDup (map fst (put_node name mesh graph)).
Proof.
  induction graph as [|[name' mesh'] graph IH]; cbn [put_node map fst]; intros Hd.
  - repeat constructor. intros [].
  - apply NoDup_cons_iff in Hd as [Hfresh Hd].
    destruct (name =? name') eqn:E; cbn [map fst].
    + apply String.eqb_eq in E. subst name'. now constructor.
    + apply String.eqb_neq in E. constructor; [|now apply IH].
      rewrite put_node_names. intros [H | H]; [now apply E | now apply Hfresh].
Qed.


Lemma put_node_source {M : Type} (name : string) (mesh : M) (graph : list (string * M))
    (node : string * M) :
  In node (put_node name mesh graph) -> node = (name, mesh) \/ In node graph.
Proof.
  induction graph as [|[name' mesh'] graph IH]; cbn [put_node In].
  - intuition.
  - destruct (name =? name'); cbn [In]; intuition.
Qed.

Lemma put_node_fresh {M : Type} (name : string) (mesh : M) (graph : list (string * M)) :
  ~ In name (map fst graph) -> put_node name mesh graph = (graph ++ [(name, mesh)])%list.
Proof.
  induction graph as [|[name' mesh'] graph IH]; cbn [put_node map fst In]; intros Hfresh;
    [reflexivity|].
  destruct (name =? name') eqn:E.
  - apply String.eqb_eq in E. subst name'. exfalso. apply Hfresh. now left.
  - cbn [app]. f_equal. apply IH. intros H. apply Hfresh. now right.
Qed.

Lemma graph_of_app {M : Type} (insertions : list (string * M)) (entry : string * M) :
  graph_of (insertions ++ [entry])
  = put_node (fst entry) (snd entry) (graph_of insertions).
Proof. unfold graph_of. now rewrite fold_left_app. Qed.

Lemma graph_of_names {M : Type} (insertions : list (string * M)) (x : string) :
  In x (map fst (graph_of insertions)) <-> In x (map fst insertions).
Proof.
  induction insertions as [|entry insertions IH] using rev_ind; [reflexivity|].
  rewrite graph_of_app, put_node_names, IH, map_app, in_app_iff. cbn [map In].
  intuition congruence.
Qed.

Lemma graph_of_distinct {M : Type} (insertions : list (string * M)) :
  NoDup (map fst (graph_of insertions)).
Proof.
  induction insertions as [|entry insertions IH] using rev_ind; [constructor|].
  rewrite graph_of_app. now apply put_node_distinct.
Qed.

Lemma graph_of_source {M : Type} (insertions : list (string * M)) (node : string * M) :
  In node (graph_of insertions) -> In node insertions.
Proof.
  induction insertions as [|entry insertions IH] using rev_ind; [intros []|].
  rewrite graph_of_app, in_app_iff. intros H.
  apply put_node_source in H as [-> | H]; [right; left; now destruct entry | left; auto].
Qed.

Lemma graph_of_length {M : Type} (insertions : list (string * M)) :
  length (graph_of insertions) <= length insertions.
Proof.
  rewrite <- (length_map fst (graph_of insertions)), <- (length_map fst insertions).
  apply NoDup_incl_length; [apply graph_of_distinct|].
  intros x. apply graph_of_names.
Qed.

Lemma graph_of_all_distinct {M : Type} (insertions : list (string * M)) :
  NoDup (map fst insertions) -> graph_of insertions = insertions.
Proof.
  induction insertions as [|entry insertions IH] using rev_ind; [reflexivity|].
  rewrite map_app. cbn [map]. intros Hd.
  rewrite graph_of_app, IH by now apply NoDup_app_remove_r in Hd.
  apply NoDup_remove_2 in Hd. rewrite app_nil_r in Hd.
  rewrite put_node_fresh by exact Hd. now destruct entry.
Qed.

Lemma graph_of_full {M : Type} (insertions : list (string * M)) :
  length (graph_of insertions) = length insertions <-> NoDup (map fst insertions).
Proof.
  split.
  - intros Hlen.
    apply (@NoDup_incl_NoDup _ (map fst (graph_of insertions))).
    + apply graph_of_distinct.
    + rewrite !length_map. lia.
    + intros x. apply graph_of_names.
  - intros Hd. now rewrite graph_of_all_distinct.
Qed.

Lemma Forall2_source {A B : Type} (R : A -> B -> Prop) (l : list A) (l' : list B) (x : A) :
  Forall2 R l l' -> In x l -> exists y, In y l' /\ R x y.
Proof.
  induction 1 as [|a b l l' Hab _ IH]; intros Hin; [destruct Hin|].
  destruct Hin as [<- | Hin].
  - exists b. split; [now left | exact Hab].
  - destruct (IH Hin) as (y & Hy & Hr). exists y. split; [now right | exact Hr].
Qed.

Section GraphOfMeshes.

Context `{L : Trimesh} {G : NodeGraph}.

(** What is taken of the library's scene graph: a new scene has no node,
    and the insertion of a single mesh is [put_node]. *)
Hypothesis nodes_of_new_scene : nodes new_scene = [].
Hypothesis nodes_of_mesh :
  forall (sc : Scene) (mesh : Mesh) (name : string),
    is_mesh mesh = true ->
    nodes (add_geometry sc mesh name) = put_node name mesh (nodes sc).

Lemma nodes_of_meshes (sc : Scene) :
  (forall entry, In entry sc -> is_mesh (snd entry) = true) ->
  nodes sc = graph_of sc.
Proof.
  induction sc as [|[name mesh] sc IH] using rev_ind; intros Hmesh.
  - exact nodes_of_new_scene.
  - change (sc ++ [(name, mesh)])%list with (add_geometry sc mesh name).
    rewrite nodes_of_mesh.
    + unfold add_geometry. rewrite graph_of_app, IH; [reflexivity|].
      intros entry Hin. apply Hmesh. apply in_or_app. now left.
    + apply (Hmesh (name, mesh)). apply in_or_app. right. now left.
Qed.

End GraphOfMeshes.

(** ** Insertions and nodes *)

Section Nodes.

Context `{L : Trimesh} {G : NodeGraph}.
Variables (w : World) (cli : Cli).

Hypothesis nodes_of_new_scene : nodes new_scene = [].
Hypothesis nodes_of_mesh :
  forall (sc : Scene) (mesh : Mesh) (name : string),
    is_mesh mesh = true ->
    nodes (add_geometry sc mesh name) = put_node name mesh (nodes sc).

Local Abbreviation o := (main w cli).
Local Abbreviation obj_dir := (obj_dir_of cli).
Local Abbreviation output_glb := (output_glb_of cli).

(** C1, as the program has it.  When every [.obj] file of the input tree
    loads (the [try] block raises nothing for it) and the run exits 0, the
    scene that was exported has received exactly one insertion per [.obj]
    file, in the order of the walk, each made under the node name
    [splitext(basename(path))[0]] of its file and holding that file's mesh:
    a file [stem.obj] is inserted under [stem], except that a stem made of
    dots only (the files [.obj], [..obj]) keeps the whole name.  The nodes
    are the library's.  When every object inserted is a single mesh, with
    the library's graph making one node per new name and pointing an
    existing node at the mesh inserted under its name, the nodes of the
    exported scene carry pairwise distinct names, which are the node names
    of the files; each node shows the mesh of a file of that name; there are
    never more nodes than files, and as many exactly when the node names of
    the files are pairwise distinct, in which case the nodes are the
    insertions. *)
Theorem C1_insertions_and_nodes_of_valid_files (t : tree) :
  lookup w obj_dir = IsDir t ->
  (forall p, In p (obj_paths (walk_tree obj_dir t)) -> load_ok w p = true) ->
  exit_code o = 0%Z ->
  (exists data,
      export w (scene (final o)) output_glb = Ok data
      /\ written o = Some (output_glb, data))
  /\ Forall2 (entry_of w) (scene (final o)) (obj_paths (walk_tree obj_dir t))
  /\ length (scene (final o)) = length (obj_paths (walk_tree obj_dir t))
  /\ map fst (scene (final o)) = map node_name_of (obj_paths (walk_tree obj_dir t))
  /\ (forall root stem,
        in_tree obj_dir t root (stem ++ ".obj") ->
        Str.mem Path.sep stem = false ->
        In (if Str.has_other Path.extsep stem then stem else stem ++ ".obj")
           (map fst (scene (final o))))
  /\ ((forall entry, In entry (scene (final o)) -> is_mesh (snd entry) = true) ->
      NoDup (map fst (nodes (scene (final o))))
      /\ (forall name,
            In name (map fst (nodes (scene (final o))))
            <-> In name (map node_name_of (obj_paths (walk_tree obj_dir t))))
      /\ (forall node,
            In node (nodes (scene (final o))) ->
            exists path,
              In path (obj_paths (walk_tree obj_dir t)) /\ entry_of w node path)
      /\ length (nodes (scene (final o))) <= length (obj_paths (walk_tree obj_dir t))
      /\ (length (nodes (scene (final o))) = length (obj_paths (walk_tree obj_dir t))
          <-> NoDup (map node_name_of (obj_paths (walk_tree obj_dir t))))
      /\ (NoDup (map node_name_of (obj_paths (walk_tree obj_dir t))) ->
          nodes (scene (final o)) = scene (final o))).
Proof.
  intros Ht Hvalid Hexit.
  pose proof (walked_entries w cli t) as Hentries.
  rewrite <- (final_scene w cli t Ht) in Hentries.
  unfold ok_paths in Hentries. rewrite (filter_all _ _ Hvalid) in Hentries.
  assert (Hnames : map fst (scene (final o))
                   = map node_name_of (obj_paths (walk_tree obj_dir t))).
  { rewrite (final_scene w cli t Ht), walked_scene, inserted_names.
    unfold ok_paths. fold (obj_paths (walk_tree obj_dir t)).
    now rewrite (filter_all _ _ Hvalid). }
  assert (Hlen : length (scene (final o)) = length (obj_paths (walk_tree obj_dir t))).
  { rewrite <- (length_map fst), Hnames. apply length_map. }
  split.
  { ending_cases w cli;
      try discriminate.
    exists data. split; auto. }
  split; [exact Hentries|]. split; [exact Hlen|]. split; [exact Hnames|].
  split.
  { intros root stem Hin Hsep. rewrite Hnames.
    assert (Hname : node_name_of (Path.join root (stem ++ ".obj"))
                    = if Str.has_other Path.extsep stem then stem else stem ++ ".obj").
    { unfold node_name_of.
      rewrite basename_join by (rewrite mem_append, Hsep; reflexivity).
      destruct (Str.has_other Path.extsep stem) eqn:Hdot;
        [now rewrite splitext_obj | now rewrite splitext_dots]. }
    rewrite <- Hname. apply in_map. unfold obj_paths.
    change (Path.join root (stem ++ ".obj")) with (item_path (root, stem ++ ".obj")).
    apply in_map. apply filter_In. split.
    - now apply walk_tree_in_tree.
    - apply endswith_iff. now exists stem. }
  intros Hmesh.
  rewrite (nodes_of_meshes nodes_of_new_scene nodes_of_mesh _ Hmesh).
  rewrite <- Hnames, <- Hlen.
  split; [apply graph_of_distinct|].
  split; [intros name; apply graph_of_names|].
  split.
  { intros node Hnode. apply graph_of_source in Hnode.
    exact (Forall2_source _ _ _ _ Hentries Hnode). }
  split; [apply graph_of_length|].
  split; [apply graph_of_full | apply graph_of_all_distinct].
Qed.


End Nodes.

(** ** The rotation, in double precision *)

(** Every entry of the scene a run ends with is what [apply_transform] made,
    with the matrix of the program, of the mesh of a file the run loaded. *)
Lemma final_entry_transformed `{L : Trimesh} (w : World) (cli : Cli)
    (entry : string * Mesh) :
  In entry (scene (final (main w cli))) ->
  exists path mesh,
    In path (loads (trace (final (main w cli))))
    /\ load w path = Ok mesh
    /\ apply_transform Transform.rotation mesh = Ok (snd entry)
    /\ fst entry = node_name_of path.
Proof.
  intros Hin.
  destruct (lookup w (obj_dir_of cli)) as [| |t] eqn:Hl.
  1, 2: destruct (main_ending w cli); try congruence; destruct Hin.
  rewrite (final_scene w cli t Hl), walked_scene in Hin.
  apply in_inserted in Hin as [item [mesh [Hitem [Hobj [Hload [Hmove Hname]]]]]].
  exists (item_path item), mesh. repeat split; auto.
  rewrite (final_loads w cli t Hl). unfold obj_paths.
  apply in_map. apply filter_In. auto.
Qed.

(** C5, as the program has it.  The matrix handed to [apply_transform] is
    the same closed value for every file,
    [rotation_matrix(radians(-90), [1, 0, 0], [0, 0, 0])], computed in
    double precision.  The angle is the double [-1.5707963267948966]; with
    the C library's sine [-1.0] and cosine [6.123233995736766e-17] of that
    angle the matrix has the rows (1 0 0 0), (0 c 1 0), (0 -1 c 0),
    (0 0 0 1), where [c] is that cosine: the rotation by -90 degrees about
    the X axis through the origin up to that rounding.  It sends (0, 1, 0)
    to (0, c, -1) and (1, 2, 3) to (1, 3, -1.9999999999999998).  Visiting a
    file whose load returns appends one entry to the scene, holding what
    that one call of [apply_transform] made of the loaded mesh; so every
    entry of the scene a run ends with is what [apply_transform] made, with
    this matrix, of the mesh of a file the run loaded.  With a library
    that keeps, for each object, the matrices applied to it since it was
    loaded, every entry of that scene has had this one matrix applied, once,
    whatever the file held. *)
Theorem C5_one_fixed_transform_in_doubles :
  forall (L : Trimesh),
    sin (Transform.radians (-90)) = (-1)%float ->
    cos (Transform.radians (-90)) = 0x1.1a62633145c07p-54%float ->
    Transform.radians (-90) = (-0x1.921fb54442d18p+0)%float
    /\ Transform.rotation
       = ((1, 0, 0, 0),
          (0, 0x1.1a62633145c07p-54, 1, 0),
          (0, -1, 0x1.1a62633145c07p-54, 0),
          (0, 0, 0, 1))%float
    /\ (forall x y z : float,
          Transform.transform_point Transform.rotation (x, y, z)
          = (1 * x + 0 * y + 0 * z + 0 * 1,
             0 * x + 0x1.1a62633145c07p-54 * y + 1 * z + 0 * 1,
             0 * x + -1 * y + 0x1.1a62633145c07p-54 * z + 0 * 1)%float)
    /\ Transform.transform_point Transform.rotation (0, 1, 0)%float
       = (0, 0x1.1a62633145c07p-54, -1)%float
    /\ Transform.transform_point Transform.rotation (1, 2, 3)%float
       = (1, 3, -0x1.fffffffffffffp+0)%float
    /\ (forall (w : World) (root file : string) (st : state) (mesh rotated : Mesh),
          Str.endswith ".obj" file = true ->
          load w (Path.join root file) = Ok mesh ->
          apply_transform Transform.rotation mesh = Ok rotated ->
          scene (visit_file w root file st)
          = (scene st ++ [(node_name_of (Path.join root file), rotated)])%list)
    /\ (forall (w : World) (cli : Cli),
          Forall
            (fun entry =>
               exists path mesh,
                 In path (loads (trace (final (main w cli))))
                 /\ load w path = Ok mesh
                 /\ apply_transform Transform.rotation mesh = Ok (snd entry)
                 /\ fst entry = node_name_of path)
            (scene (final (main w cli))))
    /\ (forall (w : @World (recording libm)) (cli : Cli)
               (entry : string * list Transform.matrix),
          (forall path applied, load w path = Ok applied -> applied = []) ->
          In entry (scene (final (main w cli))) ->
          snd entry = [Transform.rotation]).
Proof.
  intros L Hsin Hcos.
  assert (Hrot : Transform.rotation
                 = ((1, 0, 0, 0),
                    (0, 0x1.1a62633145c07p-54, 1, 0),
                    (0, -1, 0x1.1a62633145c07p-54, 0),
                    (0, 0, 0, 1))%float).
  { unfold Transform.rotation, Transform.rotation_matrix.
    rewrite Hsin, Hcos. reflexivity. }
  split; [reflexivity|].
  split; [exact Hrot|].
  split; [intros x y z; now rewrite Hrot|].
  split; [now rewrite Hrot|].
  split; [now rewrite Hrot|].
  split.
  { intros w root file st mesh rotated Hobj Hload Hmove.
    rewrite (visit_file_obj w root file st Hobj). cbv zeta.
    unfold loaded. now rewrite Hload; cbn [bind]; rewrite Hmove. }
  split.
  - intros w cli. apply Forall_forall. intros entry Hin.
    now apply final_entry_transformed.
  - intros w cli entry Hfresh Hin.
    destruct (final_entry_transformed (L := recording libm) w cli entry Hin)
      as (path & applied & _ & Hload & Hmove & _).
    apply Hfresh in Hload. subst applied. cbn in Hmove.
    now injection Hmove as <-.
Qed.

(** ** Running again *)

Section Again.

Context `{L : Trimesh}.



End Again.

(** ** Runs on the library that keeps the scene graph *)

(** The library of the runs below does what is taken of the scene graph. *)
Lemma objects_nodes_of_mesh (sc : @Scene objects) (mesh : object) (name : string) :
  object_is_mesh mesh = true ->
  object_nodes (sc ++ [(name, mesh)]) = put_node name mesh (object_nodes sc).
Proof.
  intros Hmesh. unfold object_nodes. rewrite fold_left_app. cbn [fold_left fst snd].
  destruct mesh; [reflexivity | discriminate Hmesh].
Qed.

(** C1, as stated, fails.  The folder [mixed] holds two files, and both are
    valid: [a.obj] loads as a single mesh, [b.obj] as a scene of two
    geometries.  The run exits 0 and the exported scene has three nodes,
    [a], [b.obj] and [b.obj_1]; none is named [b].  The folder [twins]
    holds [a.obj] and [sub/a.obj], both single meshes: the run exits 0 and
    the exported scene has the one node [a], showing the mesh of the file
    loaded last. *)
Lemma C1_two_valid_files_three_nodes_or_one :
  (lookup objects_world (obj_dir_of (cli_of "mixed" "out.glb")) = IsDir mixed_tree
   /\ obj_paths (walk_tree "mixed" mixed_tree) = ["mixed/a.obj"; "mixed/b.obj"]
   /\ load_ok objects_world "mixed/a.obj" = true
   /\ load_ok objects_world "mixed/b.obj" = true
   /\ exit_code (main objects_world (cli_of "mixed" "out.glb")) = 0%Z
   /\ map fst (nodes (scene (final (main objects_world (cli_of "mixed" "out.glb")))))
      = ["a"; "b.obj"; "b.obj_1"]
   /\ length (nodes (scene (final (main objects_world (cli_of "mixed" "out.glb")))))
      <> length (obj_paths (walk_tree "mixed" mixed_tree))
   /\ ~ In "b" (map fst (nodes (scene (final (main objects_world (cli_of "mixed" "out.glb")))))))
  /\ (lookup objects_world (obj_dir_of (cli_of "twins" "out.glb")) = IsDir twins_tree
      /\ obj_paths (walk_tree "twins" twins_tree) = ["twins/a.obj"; "twins/sub/a.obj"]
      /\ load objects_world "twins/a.obj" = Ok (Single "twins/a.obj")
      /\ load objects_world "twins/sub/a.obj" = Ok (Single "twins/sub/a.obj")
      /\ exit_code (main objects_world (cli_of "twins" "out.glb")) = 0%Z
      /\ nodes (scene (final (main objects_world (cli_of "twins" "out.glb"))))
         = [("a", Single "twins/sub/a.obj")]
      /\ length (nodes (scene (final (main objects_world (cli_of "twins" "out.glb")))))
         <> length (obj_paths (walk_tree "twins" twins_tree))).
Proof.
  split.
  - repeat (split; [reflexivity|]). split; [discriminate|].
    intros [H | [H | [H | []]]]; discriminate H.
  - repeat (split; [reflexivity|]). discriminate.
Qed.


(** C5, as stated, fails.  With the sine and cosine a double-precision C
    library returns, the matrix of the program is not the matrix that sends
    (x, y, z) to (x, z, -y): its entries at rows 1 and 2 of the diagonal
    are 6.123233995736766e-17, not 0, and it sends (1, 2, 3) to
    (1, 3, -1.9999999999999998), not to (1, 3, -2). *)
Lemma C5_rotation_is_not_exact :
  @Transform.rotation sample_libm
  = ((1, 0, 0, 0),
     (0, 0x1.1a62633145c07p-54, 1, 0),
     (0, -1, 0x1.1a62633145c07p-54, 0),
     (0, 0, 0, 1))%float
  /\ @Transform.rotation sample_libm
     <> ((1, 0, 0, 0), (0, 0, 1, 0), (0, -1, 0, 0), (0, 0, 0, 1))%float
  /\ Transform.transform_point (@Transform.rotation sample_libm) (1, 2, 3)%float
     = (1, 3, -0x1.fffffffffffffp+0)%float
  /\ Transform.transform_point (@Transform.rotation sample_libm) (1, 2, 3)%float
     <> (1, 3, -2)%float
  /\ PrimFloat.ltb (-2) (snd (Transform.transform_point (@Transform.rotation sample_libm)
                                (1, 2, 3)))%float = true.
Proof.
  split; [reflexivity|].
  split.
  { intros H.
    apply (f_equal (fun M : Transform.matrix =>
                      PrimFloat.eqb (snd (fst (fst (snd (fst (fst M)))))) 0)) in H.
    vm_compute in H. discriminate H. }
  split; [reflexivity|].
  split; [|reflexivity].
  intros H. apply (f_equal (fun v : Transform.vec3 => PrimFloat.eqb (snd v) (-2))) in H.
  vm_compute in H. discriminate H.
Qed.


Lemma C1_witness :
  length (scene (final (main objects_world (cli_of "plain" "out.glb")))) = 2
  /\ map fst (scene (final (main objects_world (cli_of "plain" "out.glb")))) = ["a"; "c"]
  /\ length (nodes (scene (final (main objects_world (cli_of "plain" "out.glb"))))) = 2
  /\ nodes (scene (final (main objects_world (cli_of "plain" "out.glb"))))
     = scene (final (main objects_world (cli_of "plain" "out.glb"))).
Proof.
  assert (Hvalid : forall p,
    In p (obj_paths (walk_tree (obj_dir_of (cli_of "plain" "out.glb")) plain_tree)) ->
    load_ok objects_world p = true).
  { intros p [<- | [<- | []]]; reflexivity. }
  destruct (C1_insertions_and_nodes_of_valid_files (G := objects_graph)
              objects_world (cli_of "plain" "out.glb")
              eq_refl objects_nodes_of_mesh plain_tree eq_refl Hvalid eq_refl)
    as (_ & _ & Hlen & Hnames & _ & Hnodes).
  assert (Hmesh : forall entry,
    In entry (scene (final (main objects_world (cli_of "plain" "out.glb")))) ->
    is_mesh (snd entry) = true).
  { intros entry [<- | [<- | []]]; reflexivity. }
  destruct (Hnodes Hmesh) as (_ & _ & _ & _ & Hfull & Hsame).
  assert (Hd : NoDup (map node_name_of
                        (obj_paths (walk_tree (obj_dir_of (cli_of "plain" "out.glb"))
                                      plain_tree)))).
  { repeat constructor; [intros [H | []]; discriminate H | intros []]. }
  split; [exact Hlen|]. split; [exact Hnames|].
  split; [exact (proj2 Hfull Hd) | exact (Hsame Hd)].
Defined.


Lemma C5_witness :
  Transform.transform_point (@Transform.rotation sample_libm) (1, 2, 3)%float
  = (1, 3, -0x1.fffffffffffffp+0)%float
  /\ scene (visit_file sample_world "clean" "a.obj"
              {| scene := new_scene; obj_files_found := 0; trace := [] |})
     = [("a", 1)].
Proof.
  destruct (C5_one_fixed_transform_in_doubles counting eq_refl eq_refl)
    as (_ & _ & _ & _ & Hpoint & Hvisit & _ & _).
  split; [exact Hpoint|].
  exact (Hvisit sample_world "clean" "a.obj" _ 1 1 eq_refl eq_refl eq_refl).
Defined.

